(** * PillSplitter: the pointer-gesture state machine and the split / nudge
    algorithm of [src/PillSplitter.tsx], embedded in Rocq.

    Numbers.  JavaScript numbers that hold coordinates and sizes are
    modelled as exact rationals [Q] (the source halves a width, so integers
    do not suffice); ids are modelled as unbounded integers [Z].
    Comparisons are the boolean tests of the source; equalities between
    computed coordinates are stated with [==] on [Q].  On whole pixels
    (whole numbers of magnitude at most 2^50) the source's doubles compute
    the same values as [Q]; statements of exact coincidence are made there.
    Module [Float64] embeds the click geometry on binary64 itself, to show
    what rounding does at fractional coordinates.

    React.  A handler reads the state variables of the render it was created
    in and queues updates; refs ([nextIdRef], [hasMoved]) are read and
    written at once.  Every handler below therefore takes the rendered state
    [s], evaluates all its conditions on [s], and returns the state of the
    next render. *)

From Stdlib Require Import QArith Qabs Qminmax Qround Lqa.
From Stdlib Require Import ZArith Lia List Sorted String Bool.
From Stdlib Require Import PrimFloat SpecFloat FloatOps.
Import ListNotations.

Local Open Scope Q_scope.

(** ** Data model *)

Record Pill := mkPill {
  id : Z;
  x : Q;
  y : Q;
  width : Q;
  height : Q;
  color : string;
  borderRadius : option string
}.

(** The [{x, y}] objects of the source. *)
Record Pos := mkPos { pos_x : Q; pos_y : Q }.

(** What [getBoundingClientRect] gives and the source reads. *)
Record DOMRect := mkRect { left : Q; top : Q }.

(** A React mouse event: the client coordinates, and whether [e.target] is
    the container element itself. *)
Record MouseEvent := mkMouse {
  clientX : Q;
  clientY : Q;
  targetIsContainer : bool
}.

Definition MIN_SIZE : Q := 40.
Definition CORNER_RADIUS : string := "20px".
Definition colors : list string :=
  [ "#ef4444"; "#3b82f6"; "#10b981"; "#f59e0b"; "#8b5cf6"; "#ec4899" ]%string.

(** ** Number helpers: the comparisons and [Math] functions the source uses *)

Definition Qleb (a b : Q) : bool := Qle_bool a b.
Definition Qltb (a b : Q) : bool := negb (Qle_bool b a).
Definition Qgeb (a b : Q) : bool := Qle_bool b a.
Definition Qgtb (a b : Q) : bool := negb (Qle_bool a b).

Definition Math_max (a b : Q) : Q := if Qleb a b then b else a.
Definition Math_min (a b : Q) : Q := if Qleb a b then a else b.
Definition Math_abs (a : Q) : Q := Qabs a.

(** ** The component's state: the [useState] variables and the refs *)

Record State := mkState {
  pills : list Pill;
  mousePos : Pos;
  currentPill : option Pill;
  isDrawing : bool;
  isDragging : bool;
  draggedPill : option Pill;
  dragOffset : Pos;
  startPos : Pos;
  containerRef : option DOMRect;
  nextIdRef : Z;
  hasMoved : bool;
  (** deferred [hasMoved] resets scheduled by [setTimeout] and not yet run *)
  pendingResets : nat
}.

Definition setPills (f : list Pill -> list Pill) (s : State) : State :=
  mkState (f (pills s)) (mousePos s) (currentPill s) (isDrawing s)
    (isDragging s) (draggedPill s) (dragOffset s) (startPos s)
    (containerRef s) (nextIdRef s) (hasMoved s) (pendingResets s).

Definition setMousePos (p : Pos) (s : State) : State :=
  mkState (pills s) p (currentPill s) (isDrawing s)
    (isDragging s) (draggedPill s) (dragOffset s) (startPos s)
    (containerRef s) (nextIdRef s) (hasMoved s) (pendingResets s).

Definition setCurrentPill (f : option Pill -> option Pill) (s : State) : State :=
  mkState (pills s) (mousePos s) (f (currentPill s)) (isDrawing s)
    (isDragging s) (draggedPill s) (dragOffset s) (startPos s)
    (containerRef s) (nextIdRef s) (hasMoved s) (pendingResets s).

Definition setIsDrawing (b : bool) (s : State) : State :=
  mkState (pills s) (mousePos s) (currentPill s) b
    (isDragging s) (draggedPill s) (dragOffset s) (startPos s)
    (containerRef s) (nextIdRef s) (hasMoved s) (pendingResets s).

Definition setIsDragging (b : bool) (s : State) : State :=
  mkState (pills s) (mousePos s) (currentPill s) (isDrawing s)
    b (draggedPill s) (dragOffset s) (startPos s)
    (containerRef s) (nextIdRef s) (hasMoved s) (pendingResets s).

Definition setDraggedPill (d : option Pill) (s : State) : State :=
  mkState (pills s) (mousePos s) (currentPill s) (isDrawing s)
    (isDragging s) d (dragOffset s) (startPos s)
    (containerRef s) (nextIdRef s) (hasMoved s) (pendingResets s).

Definition setDragOffset (p : Pos) (s : State) : State :=
  mkState (pills s) (mousePos s) (currentPill s) (isDrawing s)
    (isDragging s) (draggedPill s) p (startPos s)
    (containerRef s) (nextIdRef s) (hasMoved s) (pendingResets s).

Definition setStartPos (p : Pos) (s : State) : State :=
  mkState (pills s) (mousePos s) (currentPill s) (isDrawing s)
    (isDragging s) (draggedPill s) (dragOffset s) p
    (containerRef s) (nextIdRef s) (hasMoved s) (pendingResets s).

Definition setNextIdRef (n : Z) (s : State) : State :=
  mkState (pills s) (mousePos s) (currentPill s) (isDrawing s)
    (isDragging s) (draggedPill s) (dragOffset s) (startPos s)
    (containerRef s) n (hasMoved s) (pendingResets s).

Definition setHasMoved (b : bool) (s : State) : State :=
  mkState (pills s) (mousePos s) (currentPill s) (isDrawing s)
    (isDragging s) (draggedPill s) (dragOffset s) (startPos s)
    (containerRef s) (nextIdRef s) b (pendingResets s).

Definition setPendingResets (k : nat) (s : State) : State :=
  mkState (pills s) (mousePos s) (currentPill s) (isDrawing s)
    (isDragging s) (draggedPill s) (dragOffset s) (startPos s)
    (containerRef s) (nextIdRef s) (hasMoved s) k.

(** The state of the first render, once the container is mounted. *)
Definition initialState (rect : DOMRect) : State :=
  mkState [] (mkPos 0 0) None false false None (mkPos 0 0) (mkPos 0 0)
    (Some rect) 0%Z false 0%nat.

(** ** Id allocation: code that runs [nextIdRef.current++] threads the counter *)

Definition Alloc (A : Type) : Type := Z -> A * Z.

Definition ret {A : Type} (a : A) : Alloc A := fun n => (a, n).

Definition bind {A B : Type} (m : Alloc A) (k : A -> Alloc B) : Alloc B :=
  fun n => let (a, n') := m n in k a n'.

Notation "v <- m ;; k" := (bind m (fun v => k))
  (at level 61, m at next level, right associativity).

(** [nextIdRef.current++] *)
Definition postIncrement : Alloc Z := fun n => (n, (n + 1)%Z).

Definition createPill (x0 y0 w h : Q) (c : string) (br : option string)
  : Alloc Pill :=
  i <- postIncrement ;;
  ret (mkPill i x0 y0 w h c br).

(** ** Small helpers of the component *)

(** [colors[Math.floor(Math.random() * colors.length)]]; [rnd] is the value
    [Math.random()] returned. *)
Definition getRandomColor (rnd : Q) : string :=
  nth (Z.to_nat (Qfloor (rnd * inject_Z (Z.of_nat (List.length colors)))))
      colors EmptyString.

Definition getMouseCoords (s : State) (e : MouseEvent) : Pos :=
  match containerRef s with
  | Some rect => mkPos (clientX e - left rect) (clientY e - top rect)
  | None => mkPos 0 0
  end.

Definition isSome {A : Type} (o : option A) : bool :=
  match o with Some _ => true | None => false end.

(** ** handleMouseMove *)

Definition resizeDraft (start : Pos) (mx my : Q) (prev : Pill) : Pill :=
  mkPill (id prev)
    (Math_min (pos_x start) mx)
    (Math_min (pos_y start) my)
    (Math_max (Math_abs (mx - pos_x start)) MIN_SIZE)
    (Math_max (Math_abs (my - pos_y start)) MIN_SIZE)
    (color prev) (borderRadius prev).

Definition movePill (target : Pill) (offset : Pos) (mx my : Q) (pill : Pill)
  : Pill :=
  if Z.eqb (id pill) (id target)
  then mkPill (id pill)
         (Math_max 0 (mx - pos_x offset))
         (Math_max 0 (my - pos_y offset))
         (width pill) (height pill) (color pill) (borderRadius pill)
  else pill.

Definition handleMouseMove (s : State) (e : MouseEvent) : State :=
  match containerRef s with
  | None => s
  | Some _ =>
    let mx := pos_x (getMouseCoords s e) in
    let my := pos_y (getMouseCoords s e) in
    let s1 := setMousePos (mkPos mx my) s in
    let s2 :=
      if isSome (currentPill s) && negb (isDrawing s) then
        if Qgtb (Math_abs (mx - pos_x (startPos s))) 5
           || Qgtb (Math_abs (my - pos_y (startPos s))) 5
        then setHasMoved true (setIsDrawing true s1)
        else s1
      else s1 in
    let s3 :=
      if isDrawing s && isSome (currentPill s) then
        setCurrentPill (option_map (resizeDraft (startPos s) mx my)) s2
      else s2 in
    match isDragging s, draggedPill s with
    | true, Some target =>
        setPills (map (movePill target (dragOffset s) mx my))
                 (setHasMoved true s3)
    | _, _ => s3
    end
  end.

(** ** handleMouseDown (on the container) and handlePillMouseDown *)

Definition handleMouseDown (s : State) (e : MouseEvent) (rnd : Q) : State :=
  match containerRef s with
  | None => s
  | Some _ =>
    if negb (targetIsContainer e) then s
    else
      let p := getMouseCoords s e in
      let s1 := setStartPos p (setHasMoved false s) in
      let (draft, n') :=
        createPill (pos_x p) (pos_y p) MIN_SIZE MIN_SIZE
                   (getRandomColor rnd) (Some CORNER_RADIUS) (nextIdRef s1) in
      setCurrentPill (fun _ => Some draft) (setNextIdRef n' s1)
  end.

Definition handlePillMouseDown (s : State) (e : MouseEvent) (pill : Pill)
  : State :=
  let s1 := setHasMoved false s in
  let p := getMouseCoords s e in
  setDragOffset (mkPos (pos_x p - x pill) (pos_y p - y pill))
    (setDraggedPill (Some pill) (setIsDragging true s1)).

(** ** handleMouseUp and the deferred reset it schedules *)

Definition handleMouseUp (s : State) : State :=
  let s1 :=
    match isDrawing s, currentPill s with
    | true, Some draft => setPills (fun prev => prev ++ [draft]) s
    | _, _ => s
    end in
  setPendingResets (S (pendingResets s))
    (setDraggedPill None
      (setIsDragging false
        (setCurrentPill (fun _ => None)
          (setIsDrawing false s1)))).

(** The callback of [setTimeout(() => (hasMoved.current = false), 10)]. *)
Definition resetHasMoved (s : State) : State :=
  match pendingResets s with
  | O => s
  | S k => setPendingResets k (setHasMoved false s)
  end.

(** ** handleClick *)

Definition intersectsV (clickX : Q) (pill : Pill) : bool :=
  Qgeb clickX (x pill) && Qleb clickX (x pill + width pill).

Definition intersectsH (clickY : Q) (pill : Pill) : bool :=
  Qgeb clickY (y pill) && Qleb clickY (y pill + height pill).

Definition splitX (clickX : Q) (pill : Pill) : Q :=
  Math_max 0 (Math_min (width pill) (clickX - x pill)).

Definition splitY (clickY : Q) (pill : Pill) : Q :=
  Math_max 0 (Math_min (height pill) (clickY - y pill)).

Definition canSplitV (clickX : Q) (pill : Pill) : bool :=
  intersectsV clickX pill
  && Qgeb (splitX clickX pill) 20
  && Qgeb (width pill - splitX clickX pill) 20.

Definition canSplitH (clickY : Q) (pill : Pill) : bool :=
  intersectsH clickY pill
  && Qgeb (splitY clickY pill) 20
  && Qgeb (height pill - splitY clickY pill) 20.

(** The "move away" branch, after the clone got its id. *)
Definition nudge (clickX clickY : Q) (pill : Pill) (newId : Z) : Pill :=
  let centerX := x pill + width pill / 2 in
  let centerY := y pill + height pill / 2 in
  let newX :=
    if intersectsV clickX pill then
      if Qltb centerX clickX
      then Math_max 0 (clickX - width pill - 10)
      else clickX + 10
    else x pill in
  let newY :=
    if intersectsH clickY pill then
      if Qltb centerY clickY
      then Math_max 0 (clickY - height pill - 10)
      else clickY + 10
    else y pill in
  mkPill newId newX newY (width pill) (height pill) (color pill)
         (Some CORNER_RADIUS).

(** The body of [prev.forEach((pill) => ...)]: what one pill pushes onto
    [newPills]. *)
Definition splitPill (clickX clickY : Q) (pill : Pill) : Alloc (list Pill) :=
  let sx := splitX clickX pill in
  let sy := splitY clickY pill in
  if canSplitV clickX pill && canSplitH clickY pill then
    p1 <- createPill (x pill) (y pill) sx sy
            (color pill) (Some "20px 0 0 0"%string) ;;
    p2 <- createPill (x pill + sx) (y pill) (width pill - sx) sy
            (color pill) (Some "0 20px 0 0"%string) ;;
    p3 <- createPill (x pill) (y pill + sy) sx (height pill - sy)
            (color pill) (Some "0 0 0 20px"%string) ;;
    p4 <- createPill (x pill + sx) (y pill + sy)
            (width pill - sx) (height pill - sy)
            (color pill) (Some "0 0 20px 0"%string) ;;
    ret [p1; p2; p3; p4]
  else if canSplitV clickX pill then
    p1 <- createPill (x pill) (y pill) sx (height pill)
            (color pill) (Some "20px 0 0 20px"%string) ;;
    p2 <- createPill (x pill + sx) (y pill) (width pill - sx) (height pill)
            (color pill) (Some "0 20px 20px 0"%string) ;;
    ret [p1; p2]
  else if canSplitH clickY pill then
    p1 <- createPill (x pill) (y pill) (width pill) sy
            (color pill) (Some "20px 20px 0 0"%string) ;;
    p2 <- createPill (x pill) (y pill + sy) (width pill) (height pill - sy)
            (color pill) (Some "0 0 20px 20px"%string) ;;
    ret [p1; p2]
  else if intersectsV clickX pill || intersectsH clickY pill then
    i <- postIncrement ;;
    ret [nudge clickX clickY pill i]
  else
    ret [pill].

(** [prev.forEach] pushing onto the accumulator [newPills]. *)
Fixpoint forEachPill (clickX clickY : Q) (prev : list Pill)
    (newPills : list Pill) : Alloc (list Pill) :=
  match prev with
  | [] => ret newPills
  | pill :: rest =>
      pushed <- splitPill clickX clickY pill ;;
      forEachPill clickX clickY rest (newPills ++ pushed)
  end.

(** The updater passed to [setPills] in [handleClick]. *)
Definition splitAll (clickX clickY : Q) (prev : list Pill) : Alloc (list Pill) :=
  forEachPill clickX clickY prev [].

Definition handleClick (s : State) (e : MouseEvent) : State :=
  if isDrawing s || isDragging s || hasMoved s then s
  else
    let p := getMouseCoords s e in
    let (newPills, n') := splitAll (pos_x p) (pos_y p) (pills s) (nextIdRef s) in
    setPills (fun _ => newPills) (setNextIdRef n' s).

(** ** The event loop: one event is handled completely before the next *)

Inductive Event :=
| MouseMove (e : MouseEvent)
| MouseDown (e : MouseEvent) (rnd : Q)
| PillMouseDown (e : MouseEvent) (pill : Pill)
| MouseUp
| Click (e : MouseEvent)
| TimerFires.

Definition step (s : State) (ev : Event) : State :=
  match ev with
  | MouseMove e => handleMouseMove s e
  | MouseDown e rnd => handleMouseDown s e rnd
  | PillMouseDown e pill => handlePillMouseDown s e pill
  | MouseUp => handleMouseUp s
  | Click e => handleClick s e
  | TimerFires => resetHasMoved s
  end.

Definition run (s : State) (evs : list Event) : State := fold_left step evs s.

(** Pointer events at integer client coordinates: [at_] over the bare
    container, [onPill] over one of the pills inside it. *)
Definition at_ (a b : Z) : MouseEvent := mkMouse (inject_Z a) (inject_Z b) true.

Definition onPill (a b : Z) : MouseEvent :=
  mkMouse (inject_Z a) (inject_Z b) false.

Definition originRect : DOMRect := mkRect 0 0.

(** ** Geometry the claims speak about *)

(** The closed rectangle of a pill, and its interior. *)
Definition inBounds (clickX clickY : Q) (pill : Pill) : Prop :=
  x pill <= clickX <= x pill + width pill
  /\ y pill <= clickY <= y pill + height pill.

Definition inInterior (clickX clickY : Q) (pill : Pill) : Prop :=
  x pill < clickX /\ clickX < x pill + width pill
  /\ y pill < clickY /\ clickY < y pill + height pill.

Definition area (pill : Pill) : Q := width pill * height pill.

Definition totalArea (l : list Pill) : Q :=
  fold_right (fun p acc => area p + acc) 0 l.

(** The shapes a state holds: the store and, when there is one, the draft. *)
Definition draft (s : State) : list Pill :=
  match currentPill s with Some p => [p] | None => [] end.

Definition shapes (s : State) : list Pill := pills s ++ draft s.

Definition ids (l : list Pill) : list Z := map id l.

(** ** Properties, invariants and the concrete stores and runs used below *)

(** A 100 x 100 pill at the origin, with id 0. *)
Definition square100 : Pill :=
  mkPill 0 0 0 100 100 "#ef4444" (Some CORNER_RADIUS).

Definition storeOfSquare : State :=
  mkState [square100] (mkPos 0 0) None false false None (mkPos 0 0)
    (mkPos 0 0) (Some originRect) 1%Z false 0%nat.

Definition farPill : Pill :=
  mkPill 1 300 300 100 100 "#3b82f6" (Some CORNER_RADIUS).

Definition atLeast (m : Q) (p : Pill) : Prop :=
  m <= width p /\ m <= height p.

Definition sizeInv (s : State) : Prop :=
  Forall (atLeast 20) (pills s)
  /\ (forall d, currentPill s = Some d -> atLeast MIN_SIZE d).

(** Draw a 100 x 100 pill at the origin, let the deferred reset run, then
    press and release on the pill at (20, 50) without moving. *)
Definition drawThenClickNearEdge : list Event :=
  [ MouseDown (at_ 0 0) 0; MouseMove (at_ 10 10); MouseMove (at_ 100 100);
    MouseUp; Click (at_ 100 100); TimerFires;
    PillMouseDown (onPill 20 50) square100; MouseUp; Click (onPill 20 50) ].

Definition idle (s : State) : Prop :=
  isDrawing s = false /\ isDragging s = false.

(** The press point and the pointer in surface-local coordinates. *)
Definition localPos (rect : DOMRect) (e : MouseEvent) : Pos :=
  mkPos (clientX e - left rect) (clientY e - top rect).

(** The test of [handleMouseMove] that starts a draw. *)
Definition crosses (start : Pos) (p : Pos) : Prop :=
  5 < Math_abs (pos_x p - pos_x start) \/ 5 < Math_abs (pos_y p - pos_y start).

(** Between the press on the empty surface and the release: the store is
    the one at the press, no drag is going on, and a draft of at least the
    minimum size is there. *)
Definition drafting (s0 : State) (rect : DOMRect) (start : Pos) (st : State)
  : Prop :=
  pills st = pills s0
  /\ isDragging st = false
  /\ startPos st = start
  /\ containerRef st = Some rect
  /\ nextIdRef st = (nextIdRef s0 + 1)%Z
  /\ exists d, currentPill st = Some d
               /\ atLeast MIN_SIZE d /\ id d = nextIdRef s0.

(** Two draws with a press-and-release in between that commits nothing. *)
Definition drawPressDraw : list Event :=
  [ MouseDown (at_ 0 0) 0; MouseMove (at_ 10 10); MouseMove (at_ 100 100);
    MouseUp; Click (at_ 100 100); TimerFires;
    MouseDown (at_ 200 200) 0; MouseMove (at_ 203 200); MouseUp;
    Click (at_ 203 200); TimerFires;
    MouseDown (at_ 300 300) 0; MouseMove (at_ 310 310);
    MouseMove (at_ 400 400); MouseUp; Click (at_ 400 400); TimerFires ].

(** A pill drawn at (150, 0) with size 100 x 100, the deferred reset, then a
    press on the empty surface at (200, 200), a move of 3 units and a
    release. *)
Definition drawThenSmallMove : list Event :=
  [ MouseDown (at_ 150 0) 0; MouseMove (at_ 160 10); MouseMove (at_ 250 100);
    MouseUp; Click (at_ 250 100); TimerFires;
    MouseDown (at_ 200 200) 0; MouseMove (at_ 203 200); MouseUp ].

Definition nonneg (p : Pill) : Prop := 0 <= x p /\ 0 <= y p.

(** The pointer of a press on the surface or of a move lies at or after the
    surface's left and top edges. *)
Definition pointerInSurface (rect : DOMRect) (ev : Event) : Prop :=
  match ev with
  | MouseMove e | MouseDown e _ => left rect <= clientX e /\ top rect <= clientY e
  | _ => True
  end.

Definition posInv (rect : DOMRect) (s : State) : Prop :=
  containerRef s = Some rect
  /\ Forall nonneg (pills s)
  /\ Forall nonneg (draft s)
  /\ 0 <= pos_x (startPos s) /\ 0 <= pos_y (startPos s).

(** Draw a pill, drag it towards the top-left corner past the origin, then
    click near its edge to nudge it. *)
Definition drawDragNudge : list Event :=
  [ MouseDown (at_ 100 100) 0; MouseMove (at_ 110 110);
    MouseMove (at_ 200 200); MouseUp; Click (at_ 200 200); TimerFires;
    PillMouseDown (onPill 150 150)
      (mkPill 0 100 100 100 100 "#ef4444" (Some CORNER_RADIUS));
    MouseMove (onPill 20 30); MouseUp; Click (onPill 20 30); TimerFires;
    PillMouseDown (onPill 95 95) square100; MouseUp; Click (onPill 95 95) ].

Definition idInv (s : State) : Prop :=
  NoDup (ids (shapes s))
  /\ (forall i, In i (ids (shapes s)) -> (i < nextIdRef s)%Z).

(** The store and the draft list their ids in increasing order, all below
    the counter. *)
Definition increasingInv (s : State) : Prop :=
  StronglySorted Z.lt (ids (shapes s))
  /\ (forall i, In i (ids (shapes s)) -> (i < nextIdRef s)%Z).

(** No click of the run splits or nudges anything: each one is gated or
    finds every pill outside both bands. *)
Fixpoint clicksChangeNothing (s : State) (evs : list Event) : Prop :=
  match evs with
  | [] => True
  | ev :: rest =>
      match ev with
      | Click e => handleClick s e = s
      | _ => True
      end
      /\ clicksChangeNothing (step s ev) rest
  end.

(** One more draw, away from the pills already there. *)
Definition drawAt300 : list Event :=
  [ MouseDown (at_ 300 300) 0; MouseMove (at_ 310 310);
    MouseMove (at_ 400 400); MouseUp ].

(** ** Rendering: the elements the component returns for the shapes *)

(** One [<div className="pill">]: its React key (the draft has none) and
    the style the source gives it. *)
Record PillDiv := mkPillDiv {
  key : option Z;
  styleLeft : Q;
  styleTop : Q;
  styleWidth : Q;
  styleHeight : Q;
  backgroundColor : string;
  styleBorderRadius : string;
  pointerEventsNone : bool
}.

(** [a || b] for an optional string [a]: [undefined] and the empty string
    are falsy. *)
Definition orElse (a : option string) (b : string) : string :=
  match a with
  | Some EmptyString => b
  | Some v => v
  | None => b
  end.

Definition renderCurrentPill (p : Pill) : PillDiv :=
  mkPillDiv None (x p) (y p) (width p) (height p) (color p)
    (orElse (borderRadius p) CORNER_RADIUS) true.

Definition renderPill (p : Pill) : PillDiv :=
  mkPillDiv (Some (id p)) (x p) (y p) (width p) (height p) (color p)
    (orElse (borderRadius p) CORNER_RADIUS) false.

(** What is rendered: the two guide lines at [mousePos], the draft when
    there is one, and the pills of the store in order. *)
Record Rendered := mkRendered {
  guideVerticalLeft : Q;
  guideHorizontalTop : Q;
  currentPillDiv : option PillDiv;
  pillDivs : list PillDiv
}.

Definition render (s : State) : Rendered :=
  mkRendered (pos_x (mousePos s)) (pos_y (mousePos s))
    (option_map renderCurrentPill (currentPill s))
    (map renderPill (pills s)).

(** ** Further notions used by the properties of the handlers *)

(** Everything of a pill but its id. *)
Definition geometry (p : Pill)
  : Q * Q * Q * Q * string * option string :=
  (x p, y p, width p, height p, color p, borderRadius p).

(** The corner styles the source writes. *)
Definition cornerStyles : list string :=
  [ CORNER_RADIUS; "20px 0 0 0"; "0 20px 0 0"; "0 0 0 20px"; "0 0 20px 0";
    "20px 0 0 20px"; "0 20px 20px 0"; "20px 20px 0 0";
    "0 0 20px 20px" ]%string.

Definition styled (p : Pill) : Prop :=
  In (color p) colors /\ In (borderRadius p) (map Some cornerStyles).

(** [Math.random()] returns a value in [0, 1). *)
Definition randomInRange (ev : Event) : Prop :=
  match ev with
  | MouseDown _ rnd => 0 <= rnd /\ rnd < 1
  | _ => True
  end.

(** A release, then a new draw that is still going on when the reset of
    the first release is due. *)
Definition releaseThenQuickDraw : list Event :=
  [ MouseDown (at_ 300 300) 0; MouseUp; Click (at_ 300 300);
    MouseDown (at_ 0 0) 0; MouseMove (at_ 10 10); MouseMove (at_ 100 100) ].

(** The ids [n], [n + 1], ..., [n + k - 1]. *)
Fixpoint idRange (n : Z) (k : nat) : list Z :=
  match k with
  | O => []
  | S k' => n :: idRange (n + 1) k'
  end.

(** The pill's id was handed out at or after counter value [n]. *)
Definition isFresh (n : Z) (p : Pill) : bool := (n <=? id p)%Z.

(** The click touches neither axis band of the pill. *)
Definition untouched (clickX clickY : Q) (pill : Pill) : bool :=
  negb (intersectsV clickX pill) && negb (intersectsH clickY pill).

(** ** Whole pixels: where the source's doubles compute exactly *)

(** [q] is a whole number of magnitude at most [b].  Sums and differences
    of such numbers are computed without rounding by the source's doubles
    as long as they stay below 2^53. *)
Definition isPixel (b : Z) (q : Q) : bool :=
  Qeq_bool q (inject_Z (Qfloor q)) && (Z.abs (Qfloor q) <=? b)%Z.

Definition pixelWithin (b : Z) (q : Q) : Prop := isPixel b q = true.

Definition pixelPill (b : Z) (p : Pill) : Prop :=
  pixelWithin b (x p) /\ pixelWithin b (y p)
  /\ pixelWithin b (width p) /\ pixelWithin b (height p).

(** The bound on inputs: 2^50. *)
Definition PIXEL_MAX : Z := 2 ^ 50.

(** ** The click geometry on the source's own numbers (binary64) *)

Module Float64.

Definition Math_max (a b : float) : float :=
  if PrimFloat.ltb a b then b else a.

Definition Math_min (a b : float) : float :=
  if PrimFloat.ltb b a then b else a.

Record Pill := mkPill {
  id : Z;
  x : float;
  y : float;
  width : float;
  height : float;
  color : string;
  borderRadius : option string
}.

(** [e.clientX - rect.left] and [e.clientY - rect.top]. *)
Definition getMouseCoords (rectLeft rectTop clientX clientY : float)
  : float * float :=
  (PrimFloat.sub clientX rectLeft, PrimFloat.sub clientY rectTop).

Definition createPill (x0 y0 w h : float) (c : string) (br : option string)
  : Alloc Pill :=
  i <- postIncrement ;;
  ret (mkPill i x0 y0 w h c br).

Definition intersectsV (clickX : float) (pill : Pill) : bool :=
  PrimFloat.leb (x pill) clickX
  && PrimFloat.leb clickX (PrimFloat.add (x pill) (width pill)).

Definition intersectsH (clickY : float) (pill : Pill) : bool :=
  PrimFloat.leb (y pill) clickY
  && PrimFloat.leb clickY (PrimFloat.add (y pill) (height pill)).

Definition splitX (clickX : float) (pill : Pill) : float :=
  Math_max 0%float (Math_min (width pill) (PrimFloat.sub clickX (x pill))).

Definition splitY (clickY : float) (pill : Pill) : float :=
  Math_max 0%float (Math_min (height pill) (PrimFloat.sub clickY (y pill))).

Definition canSplitV (clickX : float) (pill : Pill) : bool :=
  intersectsV clickX pill
  && PrimFloat.leb 20%float (splitX clickX pill)
  && PrimFloat.leb 20%float (PrimFloat.sub (width pill) (splitX clickX pill)).

Definition canSplitH (clickY : float) (pill : Pill) : bool :=
  intersectsH clickY pill
  && PrimFloat.leb 20%float (splitY clickY pill)
  && PrimFloat.leb 20%float (PrimFloat.sub (height pill) (splitY clickY pill)).

Definition nudge (clickX clickY : float) (pill : Pill) (newId : Z) : Pill :=
  let centerX := PrimFloat.add (x pill) (PrimFloat.div (width pill) 2%float) in
  let centerY := PrimFloat.add (y pill) (PrimFloat.div (height pill) 2%float) in
  let newX :=
    if intersectsV clickX pill then
      if PrimFloat.ltb centerX clickX
      then Math_max 0%float
             (PrimFloat.sub (PrimFloat.sub clickX (width pill)) 10%float)
      else PrimFloat.add clickX 10%float
    else x pill in
  let newY :=
    if intersectsH clickY pill then
      if PrimFloat.ltb centerY clickY
      then Math_max 0%float
             (PrimFloat.sub (PrimFloat.sub clickY (height pill)) 10%float)
      else PrimFloat.add clickY 10%float
    else y pill in
  mkPill newId newX newY (width pill) (height pill) (color pill)
         (Some CORNER_RADIUS).

Definition splitPill (clickX clickY : float) (pill : Pill)
  : Alloc (list Pill) :=
  let sx := splitX clickX pill in
  let sy := splitY clickY pill in
  if canSplitV clickX pill && canSplitH clickY pill then
    p1 <- createPill (x pill) (y pill) sx sy
            (color pill) (Some "20px 0 0 0"%string) ;;
    p2 <- createPill (PrimFloat.add (x pill) sx) (y pill)
            (PrimFloat.sub (width pill) sx) sy
            (color pill) (Some "0 20px 0 0"%string) ;;
    p3 <- createPill (x pill) (PrimFloat.add (y pill) sy) sx
            (PrimFloat.sub (height pill) sy)
            (color pill) (Some "0 0 0 20px"%string) ;;
    p4 <- createPill (PrimFloat.add (x pill) sx) (PrimFloat.add (y pill) sy)
            (PrimFloat.sub (width pill) sx) (PrimFloat.sub (height pill) sy)
            (color pill) (Some "0 0 20px 0"%string) ;;
    ret [p1; p2; p3; p4]
  else if canSplitV clickX pill then
    p1 <- createPill (x pill) (y pill) sx (height pill)
            (color pill) (Some "20px 0 0 20px"%string) ;;
    p2 <- createPill (PrimFloat.add (x pill) sx) (y pill)
            (PrimFloat.sub (width pill) sx) (height pill)
            (color pill) (Some "0 20px 20px 0"%string) ;;
    ret [p1; p2]
  else if canSplitH clickY pill then
    p1 <- createPill (x pill) (y pill) (width pill) sy
            (color pill) (Some "20px 20px 0 0"%string) ;;
    p2 <- createPill (x pill) (PrimFloat.add (y pill) sy) (width pill)
            (PrimFloat.sub (height pill) sy)
            (color pill) (Some "0 0 20px 20px"%string) ;;
    ret [p1; p2]
  else if intersectsV clickX pill || intersectsH clickY pill then
    i <- postIncrement ;;
    ret [nudge clickX clickY pill i]
  else
    ret [pill].

(** The rational number a finite double stands for. *)
Definition exactValue (f : float) : Q :=
  match Prim2SF f with
  | S754_finite sign m e =>
      let magnitude :=
        if (0 <=? e)%Z then inject_Z (Z.pos m * 2 ^ e)
        else Z.pos m # Pos.pow 2 (Z.to_pos (- e)) in
      if sign then - magnitude else magnitude
  | _ => 0
  end.

End Float64.

(** A container whose rectangle starts at client x = 0.2 (the nearest
    double), a pill 100 wide drawn in it from a press at client x = 13, and
    a click at client x = 34 below the pill. *)
Definition fractionalLeft : float := 0x1.999999999999ap-3%float.

Definition fractionalPill : Float64.Pill :=
  Float64.mkPill 0
    (fst (Float64.getMouseCoords fractionalLeft 0%float 13%float 0%float))
    0%float 100%float 100%float "#ef4444" (Some CORNER_RADIUS).

Definition fractionalPieces : list Float64.Pill :=
  fst (Float64.splitPill
         (fst (Float64.getMouseCoords fractionalLeft 0%float
                 34%float 200%float))
         (snd (Float64.getMouseCoords fractionalLeft 0%float
                 34%float 200%float))
         fractionalPill 1%Z).

(** Two draws, then a press, release and click near the corner of the
    first pill, which nudges it. *)
Definition drawTwoNudgeFirst : list Event :=
  [ MouseDown (at_ 0 0) 0; MouseMove (at_ 10 10); MouseMove (at_ 100 100);
    MouseUp; Click (at_ 100 100); TimerFires;
    MouseDown (at_ 300 300) 0; MouseMove (at_ 310 310);
    MouseMove (at_ 400 400); MouseUp; Click (at_ 400 400); TimerFires;
    PillMouseDown (onPill 5 5) square100; MouseUp; Click (onPill 5 5) ].

(** A draw whose pointer ends 30 units left of the surface. *)
Definition drawLeavingSurface : list Event :=
  [ MouseDown (at_ 10 10) 0; MouseMove (at_ 4 4);
    MouseMove (mkMouse (-30) 0 true); MouseUp ].

(** A container whose rectangle starts half a pixel after the client
    origin, and a draw that starts with a press reported at client (0, 0). *)
Definition halfPixelRect : DOMRect := mkRect (1 # 2) (1 # 2).

Definition drawFromFirstPixel : list Event :=
  [ MouseDown (at_ 0 0) 0; MouseMove (at_ 10 10); MouseMove (at_ 100 100);
    MouseUp ].

(** * Proofs *)

(** ** Comparisons and [Math] functions *)

Lemma Qle_bool_false (a b : Q) : Qle_bool a b = false <-> b < a.
Proof.
  split; intro H.
  - apply Qnot_le_lt. intro Hle. apply Qle_bool_iff in Hle. congruence.
  - destruct (Qle_bool a b) eqn:E; [|reflexivity].
    apply Qle_bool_iff in E. exfalso. apply (Qlt_not_le _ _ H E).
Qed.

Lemma Qleb_true a b : Qleb a b = true <-> a <= b.
Proof. apply Qle_bool_iff. Qed.

Lemma Qleb_false a b : Qleb a b = false <-> b < a.
Proof. apply Qle_bool_false. Qed.

Lemma Qgeb_true a b : Qgeb a b = true <-> b <= a.
Proof. apply Qle_bool_iff. Qed.

Lemma Qgeb_false a b : Qgeb a b = false <-> a < b.
Proof. apply Qle_bool_false. Qed.

Lemma Qltb_true a b : Qltb a b = true <-> a < b.
Proof. unfold Qltb. rewrite negb_true_iff. apply Qle_bool_false. Qed.

Lemma Qltb_false a b : Qltb a b = false <-> b <= a.
Proof. unfold Qltb. rewrite negb_false_iff. apply Qle_bool_iff. Qed.

Lemma Qgtb_true a b : Qgtb a b = true <-> b < a.
Proof. unfold Qgtb. rewrite negb_true_iff. apply Qle_bool_false. Qed.

Lemma Qgtb_false a b : Qgtb a b = false <-> a <= b.
Proof. unfold Qgtb. rewrite negb_false_iff. apply Qle_bool_iff. Qed.

Lemma Math_max_cases a b :
  (a <= b /\ Math_max a b == b) \/ (b < a /\ Math_max a b == a).
Proof.
  unfold Math_max. destruct (Qleb a b) eqn:E.
  - left. apply Qleb_true in E. split; [assumption | reflexivity].
  - right. apply Qleb_false in E. split; [assumption | reflexivity].
Qed.

Lemma Math_min_cases a b :
  (a <= b /\ Math_min a b == a) \/ (b < a /\ Math_min a b == b).
Proof.
  unfold Math_min. destruct (Qleb a b) eqn:E.
  - left. apply Qleb_true in E. split; [assumption | reflexivity].
  - right. apply Qleb_false in E. split; [assumption | reflexivity].
Qed.

Lemma Math_abs_cases a :
  (0 <= a /\ Math_abs a == a) \/ (a < 0 /\ Math_abs a == - a).
Proof.
  unfold Math_abs. destruct (Qlt_le_dec a 0) as [H | H].
  - right. split; [assumption|]. apply Qabs_neg. apply Qlt_le_weak, H.
  - left. split; [assumption|]. apply Qabs_pos, H.
Qed.

(** Turn every boolean comparison among the hypotheses into its
    proposition. *)
Ltac qprop :=
  repeat match goal with
  | H : _ && _ = true |- _ => apply andb_true_iff in H; destruct H
  | H : Qleb _ _ = true |- _ => apply Qleb_true in H
  | H : Qleb _ _ = false |- _ => apply Qleb_false in H
  | H : Qgeb _ _ = true |- _ => apply Qgeb_true in H
  | H : Qgeb _ _ = false |- _ => apply Qgeb_false in H
  | H : Qltb _ _ = true |- _ => apply Qltb_true in H
  | H : Qltb _ _ = false |- _ => apply Qltb_false in H
  | H : Qgtb _ _ = true |- _ => apply Qgtb_true in H
  | H : Qgtb _ _ = false |- _ => apply Qgtb_false in H
  end.

(** Name every [Math.max], [Math.min] and [Math.abs] term and keep only the
    case analysis that defines it, so that linear arithmetic can finish. *)
Ltac name_math :=
  repeat match goal with
  | |- context [Math_max ?a ?b] =>
      let m := fresh "m" in
      pose proof (Math_max_cases a b); set (m := Math_max a b) in *; clearbody m
  | _ : context [Math_max ?a ?b] |- _ =>
      let m := fresh "m" in
      pose proof (Math_max_cases a b); set (m := Math_max a b) in *; clearbody m
  | |- context [Math_min ?a ?b] =>
      let m := fresh "m" in
      pose proof (Math_min_cases a b); set (m := Math_min a b) in *; clearbody m
  | _ : context [Math_min ?a ?b] |- _ =>
      let m := fresh "m" in
      pose proof (Math_min_cases a b); set (m := Math_min a b) in *; clearbody m
  | |- context [Math_abs ?a] =>
      let m := fresh "m" in
      pose proof (Math_abs_cases a); set (m := Math_abs a) in *; clearbody m
  | _ : context [Math_abs ?a] |- _ =>
      let m := fresh "m" in
      pose proof (Math_abs_cases a); set (m := Math_abs a) in *; clearbody m
  end.

Ltac qarith := qprop; name_math; lra.

(** ** Whole pixels *)

Lemma pixelWithin_iff b q :
  pixelWithin b q <-> exists z : Z, q == inject_Z z /\ (Z.abs z <= b)%Z.
Proof.
  unfold pixelWithin, isPixel.
  rewrite andb_true_iff, Qeq_bool_iff, Z.leb_le. split.
  - intros [H1 H2]. now exists (Qfloor q).
  - intros [z [Hq Hz]].
    assert (Hf : Qfloor q = z) by (rewrite Hq; apply Qfloor_Z).
    rewrite Hf. now split.
Qed.

Lemma pixel_mono a b q :
  pixelWithin a q -> (a <= b)%Z -> pixelWithin b q.
Proof.
  rewrite !pixelWithin_iff. intros [z [Hq Hz]] Hab.
  exists z. split; [assumption | lia].
Qed.

Lemma pixel_plus a b p q :
  pixelWithin a p -> pixelWithin b q -> pixelWithin (a + b) (p + q).
Proof.
  rewrite !pixelWithin_iff. intros [z1 [Hp H1]] [z2 [Hq H2]].
  exists (z1 + z2)%Z. split; [|lia].
  rewrite inject_Z_plus, Hp, Hq. reflexivity.
Qed.

Lemma pixel_minus a b p q :
  pixelWithin a p -> pixelWithin b q -> pixelWithin (a + b) (p - q).
Proof.
  rewrite !pixelWithin_iff. intros [z1 [Hp H1]] [z2 [Hq H2]].
  exists (z1 - z2)%Z. split; [|lia].
  unfold Z.sub. rewrite inject_Z_plus, inject_Z_opp, Hp, Hq. reflexivity.
Qed.

Lemma pixel_max a b p q :
  pixelWithin a p -> pixelWithin b q ->
  pixelWithin (Z.max a b) (Math_max p q).
Proof.
  intros Hp Hq. unfold Math_max. destruct (Qleb p q).
  - apply (pixel_mono b); [assumption | lia].
  - apply (pixel_mono a); [assumption | lia].
Qed.

Lemma pixel_min a b p q :
  pixelWithin a p -> pixelWithin b q ->
  pixelWithin (Z.max a b) (Math_min p q).
Proof.
  intros Hp Hq. unfold Math_min. destruct (Qleb p q).
  - apply (pixel_mono a); [assumption | lia].
  - apply (pixel_mono b); [assumption | lia].
Qed.

Lemma pixel_abs a q : pixelWithin a q -> pixelWithin a (Math_abs q).
Proof.
  rewrite !pixelWithin_iff. intros [z [Hq Hz]].
  exists (Z.abs z). split; [|lia].
  unfold Math_abs. rewrite Hq. reflexivity.
Qed.

Lemma pixel_0 : pixelWithin 0 0.
Proof. reflexivity. Qed.

Lemma pixel_10 : pixelWithin 10 10.
Proof. reflexivity. Qed.

Lemma pixel_40 : pixelWithin 40 40.
Proof. reflexivity. Qed.

(** Build the bound of a compound term from the bounds of its parts. *)
Ltac pixel_bound :=
  first
    [ eassumption
    | apply pixel_0
    | apply pixel_10
    | apply pixel_40
    | eapply pixel_plus; pixel_bound
    | eapply pixel_minus; pixel_bound
    | eapply pixel_max; pixel_bound
    | eapply pixel_min; pixel_bound
    | eapply pixel_abs; pixel_bound ].

Ltac pixels := eapply pixel_mono; [pixel_bound | unfold PIXEL_MAX; lia].

(** ** The split decision for one pill *)

Lemma splitX_range clickX pill :
  20 <= splitX clickX pill /\ 20 <= width pill - splitX clickX pill ->
  x pill <= clickX <= x pill + width pill.
Proof. unfold splitX. intros [H1 H2]. qarith. Qed.

Lemma splitY_range clickY pill :
  20 <= splitY clickY pill /\ 20 <= height pill - splitY clickY pill ->
  y pill <= clickY <= y pill + height pill.
Proof. unfold splitY. intros [H1 H2]. qarith. Qed.

Lemma canSplitV_iff clickX pill :
  canSplitV clickX pill = true <->
  20 <= splitX clickX pill /\ splitX clickX pill <= width pill - 20.
Proof.
  unfold canSplitV, intersectsV. split.
  - intro H. qprop. split; lra.
  - intros [H1 H2].
    destruct (splitX_range clickX pill) as [Ha Hb]; [split; lra|].
    rewrite !andb_true_iff, !Qgeb_true, Qleb_true. repeat split; lra.
Qed.

Lemma canSplitH_iff clickY pill :
  canSplitH clickY pill = true <->
  20 <= splitY clickY pill /\ splitY clickY pill <= height pill - 20.
Proof.
  unfold canSplitH, intersectsH. split.
  - intro H. qprop. split; lra.
  - intros [H1 H2].
    destruct (splitY_range clickY pill) as [Ha Hb]; [split; lra|].
    rewrite !andb_true_iff, !Qgeb_true, Qleb_true. repeat split; lra.
Qed.

Lemma splitPill_length clickX clickY pill n :
  List.length (fst (splitPill clickX clickY pill n)) = 4%nat <->
  canSplitV clickX pill && canSplitH clickY pill = true.
Proof.
  unfold splitPill.
  destruct (canSplitV clickX pill), (canSplitH clickY pill); simpl;
    try (split; [discriminate | discriminate]);
    try (split; reflexivity).
  destruct (intersectsV clickX pill || intersectsH clickY pill); simpl;
    split; discriminate.
Qed.

(** C3.  One pill is split four ways exactly when both clamped split
    coordinates lie in [20, width - 20] and [20, height - 20]; and on an
    axis of extent 100 a split coordinate of 19 forbids the split on that
    axis while 20 permits it. *)
Theorem four_way_split_iff :
  forall (clickX clickY : Q) (pill : Pill) (n : Z),
    (List.length (fst (splitPill clickX clickY pill n)) = 4%nat <->
       (20 <= splitX clickX pill /\ splitX clickX pill <= width pill - 20)
       /\ (20 <= splitY clickY pill /\ splitY clickY pill <= height pill - 20))
    /\ (width pill == 100 ->
          (splitX clickX pill == 19 -> canSplitV clickX pill = false)
          /\ (splitX clickX pill == 20 -> canSplitV clickX pill = true))
    /\ (height pill == 100 ->
          (splitY clickY pill == 19 -> canSplitH clickY pill = false)
          /\ (splitY clickY pill == 20 -> canSplitH clickY pill = true)).
Proof.
  intros clickX clickY pill n. split; [|split].
  - rewrite splitPill_length, andb_true_iff, canSplitV_iff, canSplitH_iff.
    reflexivity.
  - intro Hw. split; intro Hs.
    + destruct (canSplitV clickX pill) eqn:E; [|reflexivity].
      apply canSplitV_iff in E. lra.
    + apply canSplitV_iff. lra.
  - intro Hh. split; intro Hs.
    + destruct (canSplitH clickY pill) eqn:E; [|reflexivity].
      apply canSplitH_iff in E. lra.
    + apply canSplitH_iff. lra.
Qed.

Lemma four_way_split_iff_witness :
  width square100 == 100 /\ height square100 == 100
  /\ splitX 19 square100 == 19 /\ splitX 20 square100 == 20
  /\ canSplitV 19 square100 = false /\ canSplitV 20 square100 = true
  /\ canSplitH 19 square100 = false /\ canSplitH 20 square100 = true
  /\ List.length (fst (splitPill 20 20 square100 1%Z)) = 4%nat
  /\ List.length (fst (splitPill 19 20 square100 1%Z)) = 2%nat.
Proof.
  pose proof (four_way_split_iff 19 19 square100 1%Z) as [_ [H19 H19']].
  pose proof (four_way_split_iff 20 20 square100 1%Z) as [H4 [H20 H20']].
  assert (Hw : width square100 == 100) by reflexivity.
  assert (Hh : height square100 == 100) by reflexivity.
  split; [exact Hw|]. split; [exact Hh|].
  split; [reflexivity|]. split; [reflexivity|].
  split; [apply (proj1 (H19 Hw)); reflexivity|].
  split; [apply (proj2 (H20 Hw)); reflexivity|].
  split; [apply (proj1 (H19' Hh)); reflexivity|].
  split; [apply (proj2 (H20' Hh)); reflexivity|].
  split; [apply (proj2 H4); vm_compute; repeat split; discriminate|].
  reflexivity.
Defined.

(** ** The click pass over the whole store *)

Lemma forEachPill_acc clickX clickY l : forall acc n,
  forEachPill clickX clickY l acc n
  = (acc ++ fst (forEachPill clickX clickY l [] n),
     snd (forEachPill clickX clickY l [] n)).
Proof.
  induction l as [|pill rest IH]; intros acc n; simpl.
  - unfold ret. simpl. now rewrite app_nil_r.
  - unfold bind. destruct (splitPill clickX clickY pill n) as [pushed n0].
    rewrite (IH (acc ++ pushed)), (IH ([] ++ pushed)). simpl.
    now rewrite app_assoc.
Qed.

Lemma splitAll_nil clickX clickY n : splitAll clickX clickY [] n = ([], n).
Proof. reflexivity. Qed.

Lemma splitAll_cons clickX clickY pill rest n :
  splitAll clickX clickY (pill :: rest) n
  = (fst (splitPill clickX clickY pill n)
       ++ fst (splitAll clickX clickY rest (snd (splitPill clickX clickY pill n))),
     snd (splitAll clickX clickY rest (snd (splitPill clickX clickY pill n)))).
Proof.
  unfold splitAll. simpl. unfold bind.
  destruct (splitPill clickX clickY pill n) as [pushed n0]. simpl.
  now rewrite forEachPill_acc.
Qed.

Lemma splitAll_app clickX clickY l1 l2 : forall n,
  splitAll clickX clickY (l1 ++ l2) n
  = (fst (splitAll clickX clickY l1 n)
       ++ fst (splitAll clickX clickY l2 (snd (splitAll clickX clickY l1 n))),
     snd (splitAll clickX clickY l2 (snd (splitAll clickX clickY l1 n)))).
Proof.
  induction l1 as [|pill rest IH]; intro n.
  - change (splitAll clickX clickY [] n) with (@nil Pill, n). simpl.
    now destruct (splitAll clickX clickY l2 n).
  - simpl. rewrite !splitAll_cons, IH. simpl. now rewrite app_assoc.
Qed.

Lemma splitPill_no_effect clickX clickY pill n :
  intersectsV clickX pill = false ->
  intersectsH clickY pill = false ->
  splitPill clickX clickY pill n = ([pill], n).
Proof.
  intros Hv Hh. unfold splitPill, canSplitV, canSplitH.
  now rewrite Hv, Hh.
Qed.

Lemma splitAll_no_effect clickX clickY l : forall n,
  Forall (fun pill => intersectsV clickX pill = false
                      /\ intersectsH clickY pill = false) l ->
  splitAll clickX clickY l n = (l, n).
Proof.
  induction l as [|pill rest IH]; intros n Hall.
  - reflexivity.
  - inversion Hall as [|? ? [Hv Hh] Hrest]; subst.
    rewrite splitAll_cons, (splitPill_no_effect _ _ _ _ Hv Hh). simpl.
    now rewrite (IH n Hrest).
Qed.

Lemma state_eta (s : State) :
  setPills (fun _ => pills s) (setNextIdRef (nextIdRef s) s) = s.
Proof. now destruct s. Qed.

(** C1, as amended.  When the click lies outside both axis bands of every
    pill of the store (its x outside every [x, x + width] and its y outside
    every [y, y + height]), the click pass returns the store as it was, with
    no id allocated, and the click handler leaves the whole state as it
    was. *)
Theorem click_outside_bands_identity :
  forall (s : State) (e : MouseEvent),
    Forall (fun pill =>
              intersectsV (pos_x (getMouseCoords s e)) pill = false
              /\ intersectsH (pos_y (getMouseCoords s e)) pill = false)
           (pills s) ->
    splitAll (pos_x (getMouseCoords s e)) (pos_y (getMouseCoords s e))
             (pills s) (nextIdRef s) = (pills s, nextIdRef s)
    /\ handleClick s e = s.
Proof.
  intros s e Hall.
  pose proof (splitAll_no_effect _ _ _ (nextIdRef s) Hall) as Heq.
  split; [exact Heq|].
  unfold handleClick.
  destruct (isDrawing s || isDragging s || hasMoved s); [reflexivity|].
  rewrite Heq. apply state_eta.
Qed.

Lemma click_outside_bands_identity_witness :
  splitAll (pos_x (getMouseCoords storeOfSquare (at_ 150 200)))
           (pos_y (getMouseCoords storeOfSquare (at_ 150 200)))
           (pills storeOfSquare) (nextIdRef storeOfSquare)
  = (pills storeOfSquare, nextIdRef storeOfSquare)
  /\ handleClick storeOfSquare (at_ 150 200) = storeOfSquare.
Proof.
  apply (click_outside_bands_identity storeOfSquare (at_ 150 200)).
  repeat constructor.
Defined.

(** C1 as stated fails: a click strictly outside the rectangle of the only
    pill, but inside its vertical band, splits that pill in two. *)
Lemma click_outside_bounds_splits :
  ~ inBounds 50 200 square100
  /\ ids (fst (splitAll 50 200 [square100] 1%Z)) = [1%Z; 2%Z]
  /\ fst (splitAll 50 200 [square100] 1%Z) <> [square100].
Proof.
  split; [|split].
  - unfold inBounds, square100. simpl. lra.
  - reflexivity.
  - vm_compute. discriminate.
Qed.

(** ** Splits partition the pill *)

(** In exact arithmetic the pieces of a split tile the pill. *)
Lemma split_partitions_exact :
  forall (clickX clickY : Q) (pill : Pill) (n : Z),
    canSplitV clickX pill || canSplitH clickY pill = true ->
    totalArea (fst (splitPill clickX clickY pill n)) == area pill
    /\ (forall px py,
          inBounds px py pill <->
          Exists (inBounds px py) (fst (splitPill clickX clickY pill n)))
    /\ ForallOrdPairs
         (fun a b => forall px py,
                       ~ (inInterior px py a /\ inInterior px py b))
         (fst (splitPill clickX clickY pill n)).
Proof.
  intros clickX clickY pill n Hsplit. unfold splitPill.
  destruct (canSplitV clickX pill) eqn:HV;
    destruct (canSplitH clickY pill) eqn:HH;
    try discriminate Hsplit; simpl;
    try (apply canSplitV_iff in HV; destruct HV as [HV1 HV2]);
    try (apply canSplitH_iff in HH; destruct HH as [HH1 HH2]);
    set (sx := splitX clickX pill) in *;
    set (sy := splitY clickY pill) in *;
    (split; [unfold totalArea, area; simpl; ring | split]).
  - intros px py. rewrite !Exists_cons, Exists_nil.
    unfold inBounds; simpl. split.
    + intros [[Hx1 Hx2] [Hy1 Hy2]].
      destruct (Qlt_le_dec px (x pill + sx)), (Qlt_le_dec py (y pill + sy)).
      * left. lra.
      * right; right; left. lra.
      * right; left. lra.
      * right; right; right; left. lra.
    + intros [H | [H | [H | [H | []]]]]; lra.
  - repeat constructor; unfold inInterior; simpl; intros px py; lra.
  - intros px py. rewrite !Exists_cons, Exists_nil.
    unfold inBounds; simpl. split.
    + intros [[Hx1 Hx2] [Hy1 Hy2]].
      destruct (Qlt_le_dec px (x pill + sx)).
      * left. lra.
      * right; left. lra.
    + intros [H | [H | []]]; lra.
  - repeat constructor; unfold inInterior; simpl; intros px py; lra.
  - intros px py. rewrite !Exists_cons, Exists_nil.
    unfold inBounds; simpl. split.
    + intros [[Hx1 Hx2] [Hy1 Hy2]].
      destruct (Qlt_le_dec py (y pill + sy)).
      * left. lra.
      * right; left. lra.
    + intros [H | [H | []]]; lra.
  - repeat constructor; unfold inInterior; simpl; intros px py; lra.
Qed.

Lemma splitPill_pixels clickX clickY pill n :
  pixelPill PIXEL_MAX pill ->
  pixelWithin PIXEL_MAX clickX ->
  pixelWithin PIXEL_MAX clickY ->
  Forall (pixelPill (4 * PIXEL_MAX)) (fst (splitPill clickX clickY pill n)).
Proof.
  intros [Hx [Hy [Hw Hh]]] Hcx Hcy. unfold splitPill.
  destruct (canSplitV clickX pill), (canSplitH clickY pill); simpl.
  1-3: repeat (apply Forall_cons; [|try apply Forall_nil]);
    unfold pixelPill, splitX, splitY; cbn [x y width height];
    repeat split; pixels.
  destruct (intersectsV clickX pill || intersectsH clickY pill); simpl;
    (apply Forall_cons; [|apply Forall_nil]);
    unfold pixelPill, nudge; cbn [x y width height].
  - destruct (intersectsV clickX pill), (intersectsH clickY pill);
      repeat match goal with
             | |- context [if ?c then _ else _] => destruct c
             end;
      repeat split; pixels.
  - repeat split; pixels.
Qed.

(** C6, as amended.  For a pill and a click on whole pixels (whole numbers
    of magnitude at most 2^50, which the source's doubles add and subtract
    without rounding), whenever the pill is split two ways or four ways the
    pushed sub-shapes are again on whole pixels and tile its rectangle:
    their areas add up to the pill's area, a point lies in the pill's
    closed rectangle exactly when it lies in the closed rectangle of some
    sub-shape, and no point is interior to two sub-shapes. *)
Theorem split_partitions_pill :
  forall (clickX clickY : Q) (pill : Pill) (n : Z),
    pixelPill PIXEL_MAX pill ->
    pixelWithin PIXEL_MAX clickX ->
    pixelWithin PIXEL_MAX clickY ->
    canSplitV clickX pill || canSplitH clickY pill = true ->
    Forall (pixelPill (4 * PIXEL_MAX)) (fst (splitPill clickX clickY pill n))
    /\ totalArea (fst (splitPill clickX clickY pill n)) == area pill
    /\ (forall px py,
          inBounds px py pill <->
          Exists (inBounds px py) (fst (splitPill clickX clickY pill n)))
    /\ ForallOrdPairs
         (fun a b => forall px py,
                       ~ (inInterior px py a /\ inInterior px py b))
         (fst (splitPill clickX clickY pill n)).
Proof.
  intros clickX clickY pill n Hpill Hcx Hcy Hsplit.
  split; [now apply splitPill_pixels|].
  now apply split_partitions_exact.
Qed.

Lemma split_partitions_pill_witness :
  Forall (pixelPill (4 * PIXEL_MAX)) (fst (splitPill 50 50 square100 1%Z))
  /\ totalArea (fst (splitPill 50 50 square100 1%Z)) == area square100
  /\ (forall px py,
        inBounds px py square100 <->
        Exists (inBounds px py) (fst (splitPill 50 50 square100 1%Z)))
  /\ ForallOrdPairs
       (fun a b => forall px py,
                     ~ (inInterior px py a /\ inInterior px py b))
       (fst (splitPill 50 50 square100 1%Z)).
Proof.
  apply (split_partitions_pill 50 50 square100 1%Z); try reflexivity.
  repeat split; reflexivity.
Defined.

(** C6 as stated fails on the source's doubles: with the container at
    client x = 0.2, the pill 100 wide drawn from client x = 13 and clicked
    at client x = 34 is cut in two pieces whose widths add up to less than
    100, the right piece ends before the pill's right edge, and the areas
    add up to less than the pill's area. *)
Lemma split_at_fractional_coordinates_leaves_gap :
  match fractionalPieces with
  | [l; r] =>
      Float64.exactValue (Float64.x l)
      == Float64.exactValue (Float64.x fractionalPill)
      /\ Float64.exactValue (Float64.width l)
         + Float64.exactValue (Float64.width r)
         < Float64.exactValue (Float64.width fractionalPill)
      /\ Float64.exactValue (Float64.x r) + Float64.exactValue (Float64.width r)
         < Float64.exactValue (Float64.x fractionalPill)
           + Float64.exactValue (Float64.width fractionalPill)
      /\ Float64.exactValue (Float64.width l)
           * Float64.exactValue (Float64.height l)
         + Float64.exactValue (Float64.width r)
           * Float64.exactValue (Float64.height r)
         < Float64.exactValue (Float64.width fractionalPill)
           * Float64.exactValue (Float64.height fractionalPill)
  | _ => False
  end.
Proof. vm_compute. repeat split. Qed.

(** ** Ids handed out by the click pass *)

Lemma splitPill_ids clickX clickY pill n :
  (fst (splitPill clickX clickY pill n) = [pill]
     /\ snd (splitPill clickX clickY pill n) = n)
  \/ (ids (fst (splitPill clickX clickY pill n)) = [n; n + 1; n + 2; n + 3]
     /\ snd (splitPill clickX clickY pill n) = n + 4)%Z
  \/ (ids (fst (splitPill clickX clickY pill n)) = [n; n + 1]
     /\ snd (splitPill clickX clickY pill n) = n + 2)%Z
  \/ (ids (fst (splitPill clickX clickY pill n)) = [n]
     /\ snd (splitPill clickX clickY pill n) = n + 1)%Z.
Proof.
  unfold splitPill.
  destruct (canSplitV clickX pill), (canSplitH clickY pill); simpl.
  - right; left. split; [repeat (f_equal; try lia) | lia].
  - right; right; left. split; [repeat (f_equal; try lia) | lia].
  - right; right; left. split; [repeat (f_equal; try lia) | lia].
  - destruct (intersectsV clickX pill || intersectsH clickY pill); simpl.
    + right; right; right. split; reflexivity.
    + left. split; reflexivity.
Qed.

Lemma splitPill_fresh clickX clickY pill n :
  (n <= snd (splitPill clickX clickY pill n))%Z
  /\ (forall i, In i (ids (fst (splitPill clickX clickY pill n))) ->
        i = id pill \/ (n <= i < snd (splitPill clickX clickY pill n))%Z)
  /\ NoDup (ids (fst (splitPill clickX clickY pill n))).
Proof.
  destruct (splitPill_ids clickX clickY pill n)
    as [[E1 E2] | [[E1 E2] | [[E1 E2] | [E1 E2]]]]; rewrite E1, E2.
  - split; [lia|]. split.
    + simpl. intros i [<- | []]. now left.
    + repeat constructor. simpl. tauto.
  - split; [lia|]. split.
    + simpl. intros i H. right. lia.
    + repeat constructor; simpl; lia.
  - split; [lia|]. split.
    + simpl. intros i H. right. lia.
    + repeat constructor; simpl; lia.
  - split; [lia|]. split.
    + simpl. intros i H. right. lia.
    + repeat constructor; simpl; lia.
Qed.

Lemma splitAll_counter clickX clickY l : forall n,
  (n <= snd (splitAll clickX clickY l n))%Z.
Proof.
  induction l as [|pill rest IH]; intro n.
  - simpl. lia.
  - rewrite splitAll_cons. simpl.
    pose proof (splitPill_fresh clickX clickY pill n) as [H _].
    specialize (IH (snd (splitPill clickX clickY pill n))). lia.
Qed.

Lemma splitAll_ids clickX clickY l : forall n i,
  In i (ids (fst (splitAll clickX clickY l n))) ->
  In i (ids l) \/ (n <= i < snd (splitAll clickX clickY l n))%Z.
Proof.
  induction l as [|pill rest IH]; intros n i Hin.
  - simpl in Hin. contradiction.
  - rewrite splitAll_cons in *. simpl in *.
    unfold ids in Hin. rewrite map_app in Hin. apply in_app_or in Hin.
    pose proof (splitPill_fresh clickX clickY pill n) as [Hn [Hi _]].
    pose proof (splitAll_counter clickX clickY rest
                  (snd (splitPill clickX clickY pill n))) as Hc.
    destruct Hin as [Hin | Hin].
    + destruct (Hi i Hin) as [-> | Hr]; [left; now left | right; lia].
    + destruct (IH _ _ Hin) as [Hl | Hr]; [left; now right | right; lia].
Qed.

Lemma splitAll_NoDup clickX clickY l : forall n,
  NoDup (ids l) ->
  (forall i, In i (ids l) -> (i < n)%Z) ->
  NoDup (ids (fst (splitAll clickX clickY l n))).
Proof.
  induction l as [|pill rest IH]; intros n Hnd Hlt.
  - constructor.
  - rewrite splitAll_cons. simpl. unfold ids. rewrite map_app.
    simpl in Hnd. inversion Hnd as [|? ? Hnotin Hnd']; subst.
    pose proof (splitPill_fresh clickX clickY pill n) as [Hn [Hi Hnd0]].
    assert (Hlt' : forall i, In i (ids rest) ->
                     (i < snd (splitPill clickX clickY pill n))%Z).
    { intros i Hin. specialize (Hlt i (or_intror Hin)). lia. }
    apply NoDup_app; [exact Hnd0 | now apply IH |].
    intros i Hin1 Hin2.
    apply splitAll_ids in Hin2.
    destruct (Hi i Hin1) as [-> | Hr1].
    + destruct Hin2 as [Hin2 | Hr2]; [contradiction|].
      specialize (Hlt (id pill) (or_introl eq_refl)). lia.
    + destruct Hin2 as [Hin2 | Hr2]; [|lia].
      specialize (Hlt i (or_intror Hin2)). lia.
Qed.

(** ** The nudge outcome *)

Lemma splitPill_nudge clickX clickY pill n :
  canSplitV clickX pill = false ->
  canSplitH clickY pill = false ->
  intersectsV clickX pill || intersectsH clickY pill = true ->
  splitPill clickX clickY pill n = ([nudge clickX clickY pill n], (n + 1)%Z).
Proof.
  intros HV HH Hi. unfold splitPill. now rewrite HV, HH, Hi.
Qed.

(** C4.  When the nudge outcome fires for a pill of a store whose ids are
    distinct and below the counter, the click pass yields, between the
    results of the pills before it and of the pills after it, exactly one
    clone: same width, height and colour, the next fresh id (which is not the
    original's), the uniform corner radius, and on each intersecting axis
    the position the source computes (the other axis keeps its position);
    the original id is absent from the result. *)
Theorem nudge_replaces_pill_in_place :
  forall (clickX clickY : Q) (before : list Pill) (pill : Pill)
         (after : list Pill) (n : Z),
    canSplitV clickX pill = false ->
    canSplitH clickY pill = false ->
    intersectsV clickX pill || intersectsH clickY pill = true ->
    NoDup (ids (before ++ pill :: after)) ->
    (forall i, In i (ids (before ++ pill :: after)) -> (i < n)%Z) ->
    exists clone : Pill,
      fst (splitAll clickX clickY (before ++ pill :: after) n)
      = fst (splitAll clickX clickY before n)
          ++ clone
          :: fst (splitAll clickX clickY after (id clone + 1)%Z)
      /\ id clone = snd (splitAll clickX clickY before n)
      /\ id clone <> id pill
      /\ width clone = width pill
      /\ height clone = height pill
      /\ color clone = color pill
      /\ borderRadius clone = Some CORNER_RADIUS
      /\ x clone
         = (if intersectsV clickX pill then
              if Qltb (x pill + width pill / 2) clickX
              then Math_max 0 (clickX - width pill - 10)
              else clickX + 10
            else x pill)
      /\ y clone
         = (if intersectsH clickY pill then
              if Qltb (y pill + height pill / 2) clickY
              then Math_max 0 (clickY - height pill - 10)
              else clickY + 10
            else y pill)
      /\ ~ In (id pill)
             (ids (fst (splitAll clickX clickY (before ++ pill :: after) n))).
Proof.
  intros clickX clickY before pill after n HV HH Hi Hnd Hlt.
  set (n1 := snd (splitAll clickX clickY before n)).
  exists (nudge clickX clickY pill n1).
  assert (Hres :
    fst (splitAll clickX clickY (before ++ pill :: after) n)
    = fst (splitAll clickX clickY before n)
        ++ nudge clickX clickY pill n1
        :: fst (splitAll clickX clickY after (n1 + 1)%Z)).
  { rewrite splitAll_app. simpl. fold n1.
    rewrite splitAll_cons, (splitPill_nudge _ _ _ n1 HV HH Hi).
    reflexivity. }
  assert (Hpill : (id pill < n)%Z).
  { apply Hlt. unfold ids. rewrite map_app. apply in_or_app.
    right. now left. }
  assert (Hn1 : (n <= n1)%Z) by apply splitAll_counter.
  split; [exact Hres|].
  split; [reflexivity|].
  split; [simpl; lia|].
  do 6 (split; [reflexivity|]).
  assert (Hout : ~ In (id pill) (ids before ++ ids after)).
  { unfold ids in Hnd |- *. rewrite map_app in Hnd. simpl in Hnd.
    now apply NoDup_remove_2 in Hnd. }
  intro Hin. rewrite Hres in Hin. unfold ids in Hin.
  rewrite map_app in Hin. simpl in Hin.
  apply in_app_or in Hin. destruct Hin as [Hin | [Hin | Hin]].
  - apply splitAll_ids in Hin. fold n1 in Hin.
    destruct Hin as [Hin | Hr]; [|lia].
    apply Hout, in_or_app. now left.
  - lia.
  - apply splitAll_ids in Hin.
    destruct Hin as [Hin | Hr]; [|lia].
    apply Hout, in_or_app. now right.
Qed.

Lemma nudge_replaces_pill_in_place_witness :
  exists clone : Pill,
    fst (splitAll 5 5 [square100; farPill] 2%Z)
    = clone :: fst (splitAll 5 5 [farPill] (id clone + 1)%Z)
    /\ id clone = 2%Z
    /\ width clone = 100 /\ height clone = 100
    /\ x clone = 5 + 10 /\ y clone = 5 + 10
    /\ ~ In 0%Z (ids (fst (splitAll 5 5 [square100; farPill] 2%Z))).
Proof.
  destruct (nudge_replaces_pill_in_place 5 5 [] square100 [farPill] 2%Z)
    as [clone [H1 [H2 [_ [H4 [H5 [_ [_ [H8 [H9 H10]]]]]]]]]].
  - reflexivity.
  - reflexivity.
  - reflexivity.
  - repeat constructor; simpl; intuition discriminate.
  - simpl. intros i [<- | [<- | []]]; lia.
  - exists clone. repeat split; assumption.
Defined.

(** ** Runs of the event loop *)

Lemma run_app s evs1 evs2 : run s (evs1 ++ evs2) = run (run s evs1) evs2.
Proof. apply fold_left_app. Qed.

Lemma run_cons s ev evs : run s (ev :: evs) = run (step s ev) evs.
Proof. reflexivity. Qed.

Section Invariants.
Variable Inv : State -> Prop.
Variable Allowed : Event -> Prop.
Hypothesis Inv_step :
  forall s ev, Inv s -> Allowed ev -> Inv (step s ev).

Lemma run_preserves : forall evs s,
  Inv s -> Forall Allowed evs -> Inv (run s evs).
Proof.
  induction evs as [|ev evs IH]; intros s Hs Hall.
  - exact Hs.
  - inversion Hall; subst. rewrite run_cons. apply IH; auto.
Qed.
End Invariants.

Lemma Forall_True {A : Type} (l : list A) : Forall (fun _ => True) l.
Proof. induction l; constructor; auto. Qed.

(** Case analysis on every test a handler makes. *)
Ltac handler_cases :=
  repeat match goal with
  | |- context [match ?c with _ => _ end] =>
      lazymatch c with
      | context [match _ with _ => _ end] => fail
      | _ => destruct c eqn:?
      end
  end.

(** ** What each handler does to each part of the state *)

Lemma handleMouseMove_pills s e :
  pills (handleMouseMove s e) = pills s
  \/ exists target,
       isDragging s = true /\ draggedPill s = Some target
       /\ pills (handleMouseMove s e)
          = map (movePill target (dragOffset s)
                   (pos_x (getMouseCoords s e)) (pos_y (getMouseCoords s e)))
                (pills s).
Proof.
  unfold handleMouseMove.
  destruct (containerRef s) as [rect|]; [|now left].
  destruct (isDragging s) eqn:Hdrag, (draggedPill s) as [target|] eqn:Ht.
  2-4: left; handler_cases; reflexivity.
  right. exists target. repeat split. handler_cases; reflexivity.
Qed.

Lemma handleMouseMove_currentPill s e :
  currentPill (handleMouseMove s e) = currentPill s
  \/ (isDrawing s = true
      /\ currentPill (handleMouseMove s e)
         = option_map
             (resizeDraft (startPos s) (pos_x (getMouseCoords s e))
                (pos_y (getMouseCoords s e)))
             (currentPill s)).
Proof.
  unfold handleMouseMove.
  destruct (containerRef s) as [rect|]; [|now left].
  destruct (isDrawing s) eqn:Hdraw, (currentPill s) as [dr|] eqn:Hcur; simpl.
  - right. split; [reflexivity|].
    handler_cases; simpl; rewrite ?Hcur; reflexivity.
  - left. handler_cases; simpl; rewrite ?Hcur; reflexivity.
  - left. handler_cases; simpl; rewrite ?Hcur; reflexivity.
  - left. handler_cases; simpl; rewrite ?Hcur; reflexivity.
Qed.

Lemma handleMouseMove_frame s e :
  nextIdRef (handleMouseMove s e) = nextIdRef s
  /\ startPos (handleMouseMove s e) = startPos s
  /\ containerRef (handleMouseMove s e) = containerRef s
  /\ isDragging (handleMouseMove s e) = isDragging s
  /\ draggedPill (handleMouseMove s e) = draggedPill s
  /\ dragOffset (handleMouseMove s e) = dragOffset s
  /\ pendingResets (handleMouseMove s e) = pendingResets s.
Proof.
  unfold handleMouseMove. handler_cases; repeat split; simpl; congruence.
Qed.

Lemma handleMouseDown_container s e rnd rect :
  containerRef s = Some rect ->
  targetIsContainer e = true ->
  handleMouseDown s e rnd
  = setCurrentPill
      (fun _ => Some (mkPill (nextIdRef s)
                        (pos_x (getMouseCoords s e)) (pos_y (getMouseCoords s e))
                        MIN_SIZE MIN_SIZE (getRandomColor rnd)
                        (Some CORNER_RADIUS)))
      (setNextIdRef (nextIdRef s + 1)%Z
         (setStartPos (getMouseCoords s e) (setHasMoved false s))).
Proof.
  intros Hc Ht. unfold handleMouseDown. rewrite Hc, Ht. reflexivity.
Qed.

Lemma handleMouseDown_elsewhere s e rnd :
  containerRef s = None \/ targetIsContainer e = false ->
  handleMouseDown s e rnd = s.
Proof.
  unfold handleMouseDown. intros [H | H]; rewrite H; [reflexivity|].
  now destruct (containerRef s).
Qed.

Lemma handleMouseDown_cases s e rnd :
  handleMouseDown s e rnd = s
  \/ exists rect, containerRef s = Some rect /\ targetIsContainer e = true.
Proof.
  destruct (containerRef s) as [rect|] eqn:Hc.
  - destruct (targetIsContainer e) eqn:Ht.
    + right. now exists rect.
    + left. apply handleMouseDown_elsewhere. now right.
  - left. apply handleMouseDown_elsewhere. now left.
Qed.

Lemma handleMouseUp_pills s :
  pills (handleMouseUp s)
  = if isDrawing s then pills s ++ draft s else pills s.
Proof.
  unfold handleMouseUp, draft.
  destruct (isDrawing s), (currentPill s); simpl;
    rewrite ?app_nil_r; reflexivity.
Qed.

Lemma handleMouseUp_frame s :
  currentPill (handleMouseUp s) = None
  /\ isDrawing (handleMouseUp s) = false
  /\ isDragging (handleMouseUp s) = false
  /\ draggedPill (handleMouseUp s) = None
  /\ nextIdRef (handleMouseUp s) = nextIdRef s
  /\ hasMoved (handleMouseUp s) = hasMoved s
  /\ startPos (handleMouseUp s) = startPos s
  /\ containerRef (handleMouseUp s) = containerRef s.
Proof.
  unfold handleMouseUp. handler_cases; repeat split; simpl; congruence.
Qed.

Lemma handleClick_cases s e :
  handleClick s e = s
  \/ (isDrawing s = false /\ isDragging s = false /\ hasMoved s = false
      /\ handleClick s e
         = setPills
             (fun _ => fst (splitAll (pos_x (getMouseCoords s e))
                              (pos_y (getMouseCoords s e))
                              (pills s) (nextIdRef s)))
             (setNextIdRef
                (snd (splitAll (pos_x (getMouseCoords s e))
                        (pos_y (getMouseCoords s e))
                        (pills s) (nextIdRef s))) s)).
Proof.
  unfold handleClick.
  destruct (isDrawing s), (isDragging s), (hasMoved s); simpl;
    try (now left).
  right. repeat split.
  now destruct (splitAll _ _ _ _).
Qed.

Lemma resetHasMoved_frame s :
  pills (resetHasMoved s) = pills s
  /\ currentPill (resetHasMoved s) = currentPill s
  /\ nextIdRef (resetHasMoved s) = nextIdRef s
  /\ startPos (resetHasMoved s) = startPos s
  /\ containerRef (resetHasMoved s) = containerRef s.
Proof.
  unfold resetHasMoved. destruct (pendingResets s); repeat split; reflexivity.
Qed.

(** ** Sizes of the shapes in the store *)

Lemma atLeast_weaken p : atLeast MIN_SIZE p -> atLeast 20 p.
Proof. unfold atLeast, MIN_SIZE. intros [H1 H2]. split; lra. Qed.

Lemma movePill_size target offset mx my pill :
  width (movePill target offset mx my pill) = width pill
  /\ height (movePill target offset mx my pill) = height pill.
Proof. unfold movePill. destruct (id pill =? id target)%Z; now split. Qed.

Lemma resizeDraft_size start mx my prev :
  atLeast MIN_SIZE (resizeDraft start mx my prev).
Proof. unfold atLeast, resizeDraft, MIN_SIZE. simpl. split; qarith. Qed.

Lemma splitPill_size clickX clickY pill n :
  atLeast 20 pill ->
  Forall (atLeast 20) (fst (splitPill clickX clickY pill n)).
Proof.
  intros [Hw Hh]. unfold splitPill.
  destruct (canSplitV clickX pill) eqn:HV;
    destruct (canSplitH clickY pill) eqn:HH; simpl;
    try (apply canSplitV_iff in HV; destruct HV);
    try (apply canSplitH_iff in HH; destruct HH).
  - repeat constructor; simpl; lra.
  - repeat constructor; simpl; lra.
  - repeat constructor; simpl; lra.
  - destruct (intersectsV clickX pill || intersectsH clickY pill); simpl;
      repeat constructor; simpl; lra.
Qed.

Lemma splitAll_size clickX clickY l : forall n,
  Forall (atLeast 20) l ->
  Forall (atLeast 20) (fst (splitAll clickX clickY l n)).
Proof.
  induction l as [|pill rest IH]; intros n Hall.
  - constructor.
  - inversion Hall; subst. rewrite splitAll_cons. simpl.
    apply Forall_app. split; [now apply splitPill_size | now apply IH].
Qed.

Lemma sizeInv_step s ev : sizeInv s -> True -> sizeInv (step s ev).
Proof.
  intros [Hp Hd] _. destruct ev as [e | e rnd | e pill | | e |]; simpl.
  - (* MouseMove *)
    split.
    + destruct (handleMouseMove_pills s e) as [-> | [t [_ [_ ->]]]];
        [assumption|].
      apply Forall_map. eapply Forall_impl; [|exact Hp].
      intros p [H1 H2]. unfold atLeast.
      destruct (movePill_size t (dragOffset s) (pos_x (getMouseCoords s e))
                  (pos_y (getMouseCoords s e)) p) as [-> ->].
      now split.
    + destruct (handleMouseMove_currentPill s e) as [-> | [_ ->]];
        [assumption|].
      intros d' Hd'. destruct (currentPill s); simpl in Hd'; [|discriminate].
      injection Hd' as <-. apply resizeDraft_size.
  - (* MouseDown *)
    destruct (handleMouseDown_cases s e rnd) as [-> | [rect [Hc Ht]]];
      [now split|].
    rewrite (handleMouseDown_container _ _ _ _ Hc Ht). split; simpl; auto.
    intros d' [= <-]. unfold atLeast, MIN_SIZE. simpl. lra.
  - (* PillMouseDown *)
    split; simpl; auto.
  - (* MouseUp *)
    destruct (handleMouseUp_frame s) as [Hnone _]. split.
    + rewrite handleMouseUp_pills. destruct (isDrawing s); [|assumption].
      apply Forall_app. split; [assumption|]. unfold draft.
      destruct (currentPill s) as [d'|]; constructor; [|constructor].
      apply atLeast_weaken. now apply Hd.
    + rewrite Hnone. discriminate.
  - (* Click *)
    destruct (handleClick_cases s e) as [-> | [_ [_ [_ ->]]]];
      [now split|].
    split; simpl; auto. now apply splitAll_size.
  - (* TimerFires *)
    destruct (resetHasMoved_frame s) as [Hp' [Hc' _]].
    split; [now rewrite Hp' | now rewrite Hc'].
Qed.

Lemma sizeInv_initial rect : sizeInv (initialState rect).
Proof. split; [constructor | discriminate]. Qed.

Lemma sizeInv_reachable rect evs : sizeInv (run (initialState rect) evs).
Proof.
  apply (run_preserves sizeInv (fun _ => True) sizeInv_step).
  - apply sizeInv_initial.
  - apply Forall_True.
Qed.

(** C2, as amended.  In every state reachable from the first render, every
    pill of the store has width and height at least 20 (the split margin),
    and the draft, which is what a release commits, has width and height at
    least [MIN_SIZE] = 40. *)
Theorem store_sizes_reachable :
  forall (rect : DOMRect) (evs : list Event),
    Forall (atLeast 20) (pills (run (initialState rect) evs))
    /\ Forall (atLeast MIN_SIZE) (draft (run (initialState rect) evs))
    /\ pills (step (run (initialState rect) evs) MouseUp)
       = (if isDrawing (run (initialState rect) evs)
          then pills (run (initialState rect) evs)
                 ++ draft (run (initialState rect) evs)
          else pills (run (initialState rect) evs)).
Proof.
  intros rect evs.
  destruct (sizeInv_reachable rect evs) as [Hp Hd].
  split; [exact Hp|]. split.
  - unfold draft. destruct (currentPill _) as [d|]; constructor; auto.
  - apply handleMouseUp_pills.
Qed.

(** C2 as stated fails: the four-way split at (20, 50) of a committed
    100 x 100 pill puts pills of width 20 into the store. *)
Lemma split_emits_width_below_MIN_SIZE :
  pills (run (initialState originRect)
           [ MouseDown (at_ 0 0) 0; MouseMove (at_ 10 10);
             MouseMove (at_ 100 100); MouseUp ]) = [square100]
  /\ map (fun p => (id p, width p, height p))
       (pills (run (initialState originRect) drawThenClickNearEdge))
     = [ (1%Z, 20, 50); (2%Z, 80, 50); (3%Z, 20, 50); (4%Z, 80, 50) ]
  /\ ~ Forall (atLeast MIN_SIZE)
         (pills (run (initialState originRect) drawThenClickNearEdge)).
Proof.
  split; [reflexivity|]. split; [reflexivity|].
  intro H. vm_compute in H. inversion H as [|? ? [Hw _] _].
  apply Hw. reflexivity.
Qed.

(** ** The draw gesture *)

Lemma getMouseCoords_local s rect e :
  containerRef s = Some rect -> getMouseCoords s e = localPos rect e.
Proof. intro H. unfold getMouseCoords. now rewrite H. Qed.

Lemma press_drafting s rect e rnd :
  containerRef s = Some rect ->
  targetIsContainer e = true ->
  isDragging s = false ->
  drafting s rect (localPos rect e) (handleMouseDown s e rnd)
  /\ isDrawing (handleMouseDown s e rnd) = isDrawing s
  /\ hasMoved (handleMouseDown s e rnd) = false.
Proof.
  intros Hc Ht Hdrag.
  rewrite (handleMouseDown_container _ _ _ _ Hc Ht).
  rewrite (getMouseCoords_local _ _ _ Hc).
  repeat split; simpl; auto.
  eexists. split; [reflexivity|]. split; [|reflexivity].
  unfold atLeast, MIN_SIZE. simpl. lra.
Qed.

Lemma move_drafting s0 rect start st e :
  drafting s0 rect start st ->
  drafting s0 rect start (handleMouseMove st e).
Proof.
  intros [Hp [Hdrag [Hstart [Hc [Hn [d [Hcur [Hsz Hid]]]]]]]].
  destruct (handleMouseMove_frame st e) as [Fn [Fs [Fc [Fd _]]]].
  unfold drafting. rewrite Fn, Fs, Fc, Fd.
  split.
  { destruct (handleMouseMove_pills st e) as [-> | [t [Hd' _]]];
      [assumption | congruence]. }
  do 4 (split; [assumption|]).
  destruct (handleMouseMove_currentPill st e) as [-> | [_ ->]].
  - now exists d.
  - rewrite Hcur. simpl. eexists. split; [reflexivity|].
    split; [apply resizeDraft_size | exact Hid].
Qed.

Lemma moves_drafting s0 rect start moves : forall st,
  drafting s0 rect start st ->
  drafting s0 rect start (run st (map MouseMove moves)).
Proof.
  induction moves as [|e moves IH]; intros st H; simpl.
  - exact H.
  - apply IH. now apply move_drafting.
Qed.

Lemma release_drafting s0 rect start st :
  drafting s0 rect start st ->
  (isDrawing st = false /\ pills (handleMouseUp st) = pills s0)
  \/ (isDrawing st = true
      /\ exists d, currentPill st = Some d
                   /\ pills (handleMouseUp st) = pills s0 ++ [d]
                   /\ atLeast MIN_SIZE d /\ id d = nextIdRef s0).
Proof.
  intros [Hp [_ [_ [_ [_ [d [Hcur [Hsz Hid]]]]]]]].
  rewrite handleMouseUp_pills. unfold draft. rewrite Hcur, Hp.
  destruct (isDrawing st); [right | left]; split; auto.
  now exists d.
Qed.

Lemma move_isDrawing st e :
  isDrawing st = true -> isDrawing (handleMouseMove st e) = true.
Proof.
  intro H. unfold handleMouseMove. handler_cases; simpl; congruence.
Qed.

Lemma moves_isDrawing moves : forall st,
  isDrawing st = true -> isDrawing (run st (map MouseMove moves)) = true.
Proof.
  induction moves as [|e moves IH]; intros st H; simpl.
  - exact H.
  - apply IH. now apply move_isDrawing.
Qed.

Lemma move_hasMoved st e :
  hasMoved st = true -> hasMoved (handleMouseMove st e) = true.
Proof.
  intro H. unfold handleMouseMove. handler_cases; simpl; congruence.
Qed.

Lemma moves_hasMoved moves : forall st,
  hasMoved st = true -> hasMoved (run st (map MouseMove moves)) = true.
Proof.
  induction moves as [|e moves IH]; intros st H; simpl.
  - exact H.
  - apply IH. now apply move_hasMoved.
Qed.

Lemma crosses_test start p :
  crosses start p ->
  Qgtb (Math_abs (pos_x p - pos_x start)) 5
  || Qgtb (Math_abs (pos_y p - pos_y start)) 5 = true.
Proof.
  intros [H | H]; apply orb_true_iff; [left | right]; now apply Qgtb_true.
Qed.

Lemma move_crossing s0 rect start st e :
  drafting s0 rect start st ->
  isDrawing st = false ->
  crosses start (localPos rect e) ->
  isDrawing (handleMouseMove st e) = true
  /\ hasMoved (handleMouseMove st e) = true.
Proof.
  intros [_ [Hdrag [Hstart [Hc [_ [d [Hcur _]]]]]]] Hdraw Hcross.
  apply crosses_test in Hcross.
  unfold handleMouseMove. cbv zeta.
  rewrite (getMouseCoords_local _ _ e Hc), Hc, Hcur, Hdraw, Hdrag, Hstart.
  rewrite Hcross. split; reflexivity.
Qed.

Lemma moves_crossing s0 rect start moves : forall st,
  drafting s0 rect start st ->
  isDrawing st = false ->
  Exists (fun e => crosses start (localPos rect e)) moves ->
  isDrawing (run st (map MouseMove moves)) = true
  /\ hasMoved (run st (map MouseMove moves)) = true.
Proof.
  induction moves as [|e moves IH]; intros st Hd Hdraw Hex.
  - inversion Hex.
  - simpl.
    destruct (isDrawing (handleMouseMove st e)) eqn:Hnext.
    + (* this move started the draw: it crossed the threshold *)
      assert (Hm : hasMoved (handleMouseMove st e) = true).
      { revert Hnext. unfold handleMouseMove.
        handler_cases; simpl; congruence. }
      split; [now apply moves_isDrawing | now apply moves_hasMoved].
    + inversion Hex as [? ? Hc | ? ? Hrest]; subst.
      * destruct (move_crossing _ _ _ _ e Hd Hdraw Hc). congruence.
      * apply IH; auto. now apply move_drafting.
Qed.

Lemma move_resizes s0 rect start st e :
  drafting s0 rect start st ->
  isDrawing st = true ->
  exists d, currentPill st = Some d
    /\ currentPill (handleMouseMove st e)
       = Some (resizeDraft start (pos_x (localPos rect e))
                 (pos_y (localPos rect e)) d).
Proof.
  intros [_ [Hdrag [Hstart [Hc [_ [d [Hcur _]]]]]]] Hdraw.
  exists d. split; [assumption|].
  unfold handleMouseMove. cbv zeta.
  rewrite (getMouseCoords_local _ _ e Hc), Hc, Hcur, Hdraw, Hdrag, Hstart.
  simpl. rewrite Hcur. reflexivity.
Qed.

Lemma draw_run s e0 rnd moves :
  run s (MouseDown e0 rnd :: map MouseMove moves ++ [MouseUp])
  = handleMouseUp (run (handleMouseDown s e0 rnd) (map MouseMove moves)).
Proof. rewrite run_cons, run_app. reflexivity. Qed.

Lemma draw_run_last s e0 rnd earlier last :
  run s (MouseDown e0 rnd :: map MouseMove (earlier ++ [last]) ++ [MouseUp])
  = handleMouseUp
      (handleMouseMove
         (run (handleMouseDown s e0 rnd) (map MouseMove earlier)) last).
Proof. rewrite draw_run, map_app, run_app. reflexivity. Qed.

(** C7, as amended.  (1) A draw gesture commits at most one pill, and that
    pill has width and height at least 40, whatever the moves were.
    (2) After a press at (100,100), pointer moves of which one lies more
    than 5 units from the press point on some axis, a further move to
    (300,250) and a release, the store has gained exactly one pill, with
    origin (100,100) and size (200,150). *)
Theorem draw_gesture_commits :
  (forall (s : State) (rect : DOMRect) (e0 : MouseEvent) (rnd : Q)
          (moves : list MouseEvent),
     containerRef s = Some rect ->
     targetIsContainer e0 = true ->
     isDragging s = false ->
     pills (run s (MouseDown e0 rnd :: map MouseMove moves ++ [MouseUp]))
     = pills s
     \/ exists d,
          pills (run s (MouseDown e0 rnd :: map MouseMove moves ++ [MouseUp]))
          = pills s ++ [d]
          /\ MIN_SIZE <= width d /\ MIN_SIZE <= height d)
  /\
  (forall (s : State) (rect : DOMRect) (e0 : MouseEvent) (rnd : Q)
          (earlier : list MouseEvent) (last : MouseEvent),
     containerRef s = Some rect ->
     idle s ->
     targetIsContainer e0 = true ->
     pos_x (localPos rect e0) == 100 ->
     pos_y (localPos rect e0) == 100 ->
     Exists (fun e => crosses (localPos rect e0) (localPos rect e)) earlier ->
     pos_x (localPos rect last) == 300 ->
     pos_y (localPos rect last) == 250 ->
     exists d,
       pills (run s (MouseDown e0 rnd
                       :: map MouseMove (earlier ++ [last]) ++ [MouseUp]))
       = pills s ++ [d]
       /\ x d == 100 /\ y d == 100 /\ width d == 200 /\ height d == 150).
Proof.
  split.
  - intros s rect e0 rnd moves Hc Ht Hdrag.
    rewrite draw_run.
    destruct (press_drafting s rect e0 rnd Hc Ht Hdrag) as [Hd _].
    apply (moves_drafting _ _ _ moves) in Hd.
    destruct (release_drafting _ _ _ _ Hd)
      as [[_ Hp] | [_ [d [_ [Hp [Hsz _]]]]]].
    + now left.
    + right. exists d. split; [exact Hp | exact Hsz].
  - intros s rect e0 rnd earlier last Hc [Hidle1 Hidle2] Ht Hx0 Hy0 Hex Hx1 Hy1.
    rewrite draw_run_last.
    destruct (press_drafting s rect e0 rnd Hc Ht Hidle2) as [Hd [Hdraw _]].
    rewrite Hidle1 in Hdraw.
    destruct (moves_crossing _ _ _ earlier _ Hd Hdraw Hex) as [Hdrawing _].
    apply (moves_drafting _ _ _ earlier) in Hd.
    set (s2 := run (handleMouseDown s e0 rnd) (map MouseMove earlier)) in *.
    destruct (move_resizes _ _ _ _ last Hd Hdrawing) as [d [Hcur Hcur']].
    pose proof (move_drafting _ _ _ _ last Hd) as [Hp _].
    pose proof (move_isDrawing _ last Hdrawing) as Hdrawing'.
    rewrite handleMouseUp_pills, Hdrawing'. unfold draft.
    rewrite Hcur', Hp. eexists. split; [reflexivity|].
    unfold resizeDraft, MIN_SIZE, localPos in *.
    cbn [x y width height pos_x pos_y] in *.
    repeat split; qarith.
Qed.

Lemma draw_gesture_commits_witness :
  (pills (run (initialState originRect)
            (MouseDown (at_ 100 100) 0
               :: map MouseMove [at_ 300 100] ++ [MouseUp])) = []
   \/ exists d,
        pills (run (initialState originRect)
                 (MouseDown (at_ 100 100) 0
                    :: map MouseMove [at_ 300 100] ++ [MouseUp]))
        = [] ++ [d]
        /\ MIN_SIZE <= width d /\ MIN_SIZE <= height d)
  /\ exists d,
       pills (run (initialState originRect)
                (MouseDown (at_ 100 100) 0
                   :: map MouseMove ([at_ 106 100] ++ [at_ 300 250])
                   ++ [MouseUp]))
       = [] ++ [d]
       /\ x d == 100 /\ y d == 100 /\ width d == 200 /\ height d == 150.
Proof.
  destruct draw_gesture_commits as [H1 H2]. split.
  - apply (H1 (initialState originRect) originRect); reflexivity.
  - apply (H2 (initialState originRect) originRect);
      try reflexivity; try (split; reflexivity).
    constructor. left. vm_compute. reflexivity.
Defined.

(** C7 as stated fails on its example: when the move to (300,250) is the
    only move, it starts the draw but does not resize the draft, and the
    release commits the 40 x 40 draft. *)
Lemma single_move_commits_minimum_draft :
  pills (run (initialState originRect)
           [MouseDown (at_ 100 100) 0; MouseMove (at_ 300 250); MouseUp])
  = [mkPill 0 100 100 40 40 "#ef4444" (Some CORNER_RADIUS)]
  /\ ~ (exists d,
          pills (run (initialState originRect)
                   [MouseDown (at_ 100 100) 0; MouseMove (at_ 300 250);
                    MouseUp]) = [d]
          /\ width d == 200 /\ height d == 150).
Proof.
  split; [reflexivity|].
  intros [d [Hd [Hw _]]]. vm_compute in Hd. injection Hd as <-.
  vm_compute in Hw. discriminate.
Qed.

(** ** The click that follows a gesture *)

Lemma handleClick_gated s e :
  hasMoved s = true -> handleClick s e = s.
Proof.
  intro H. unfold handleClick. rewrite H.
  now rewrite !orb_true_r.
Qed.

Lemma drag_move_sets_hasMoved st rect target e :
  containerRef st = Some rect ->
  isDragging st = true ->
  draggedPill st = Some target ->
  hasMoved (handleMouseMove st e) = true.
Proof.
  intros Hc Hdrag Ht. unfold handleMouseMove. rewrite Hc, Hdrag, Ht.
  reflexivity.
Qed.

Lemma drag_run s e0 pill first moves :
  run s (PillMouseDown e0 pill :: map MouseMove (first :: moves) ++ [MouseUp])
  = handleMouseUp
      (run (handleMouseMove (handlePillMouseDown s e0 pill) first)
           (map MouseMove moves)).
Proof. simpl map. rewrite <- app_comm_cons, !run_cons, run_app. reflexivity. Qed.

Lemma not_crosses_test start p :
  ~ crosses start p ->
  Qgtb (Math_abs (pos_x p - pos_x start)) 5
  || Qgtb (Math_abs (pos_y p - pos_y start)) 5 = false.
Proof.
  intro H. apply orb_false_iff. split.
  - destruct (Qgtb _ 5) eqn:E; [|reflexivity].
    exfalso. apply H. left. now apply Qgtb_true.
  - destruct (Qgtb _ 5) eqn:E; [|reflexivity].
    exfalso. apply H. right. now apply Qgtb_true.
Qed.

Lemma move_not_crossing s0 rect start st e :
  drafting s0 rect start st ->
  isDrawing st = false ->
  hasMoved st = false ->
  ~ crosses start (localPos rect e) ->
  isDrawing (handleMouseMove st e) = false
  /\ hasMoved (handleMouseMove st e) = false.
Proof.
  intros [_ [Hdrag [Hstart [Hc [_ [d [Hcur _]]]]]]] Hdraw Hmoved Hcross.
  apply not_crosses_test in Hcross.
  unfold handleMouseMove. cbv zeta.
  rewrite (getMouseCoords_local _ _ e Hc), Hc, Hcur, Hdraw, Hdrag, Hstart.
  rewrite Hcross. split; simpl; assumption.
Qed.

Lemma moves_not_crossing s0 rect start moves : forall st,
  drafting s0 rect start st ->
  isDrawing st = false ->
  hasMoved st = false ->
  Forall (fun e => ~ crosses start (localPos rect e)) moves ->
  isDrawing (run st (map MouseMove moves)) = false
  /\ hasMoved (run st (map MouseMove moves)) = false.
Proof.
  induction moves as [|e moves IH]; intros st Hd Hdraw Hmoved Hall.
  - now split.
  - inversion Hall as [|? ? Hn Hrest]; subst. simpl.
    destruct (move_not_crossing _ _ _ _ e Hd Hdraw Hmoved Hn).
    apply IH; auto. now apply move_drafting.
Qed.

Lemma handleClick_live s e :
  isDrawing s = false -> isDragging s = false -> hasMoved s = false ->
  pills (handleClick s e)
  = fst (splitAll (pos_x (getMouseCoords s e)) (pos_y (getMouseCoords s e))
           (pills s) (nextIdRef s))
  /\ nextIdRef (handleClick s e)
     = snd (splitAll (pos_x (getMouseCoords s e)) (pos_y (getMouseCoords s e))
              (pills s) (nextIdRef s)).
Proof.
  intros H1 H2 H3. unfold handleClick. rewrite H1, H2, H3. simpl.
  now destruct (splitAll _ _ _ _).
Qed.

(** C5, as amended.  In a cycle press, moves, release, click during which
    no deferred reset runs: after a drag with at least one move, and after a
    press on the empty surface, from the idle state, some move of which went
    more than 5 units from the press point on an axis, the [moved] flag is
    set at the release and the click leaves the whole state as it is: no
    split, no nudge.  After a press on the empty surface, from the idle
    state, whose moves all stay within 5 units of the press point, the flag
    is unset at the release and the click runs the split pass over the
    store at the click point. *)
Theorem click_after_moved_gesture_is_noop :
  (forall (s : State) (rect : DOMRect) (e0 : MouseEvent) (pill : Pill)
          (first : MouseEvent) (moves : list MouseEvent) (click : MouseEvent),
     containerRef s = Some rect ->
     hasMoved (run s (PillMouseDown e0 pill
                        :: map MouseMove (first :: moves) ++ [MouseUp])) = true
     /\ step (run s (PillMouseDown e0 pill
                       :: map MouseMove (first :: moves) ++ [MouseUp]))
             (Click click)
        = run s (PillMouseDown e0 pill
                   :: map MouseMove (first :: moves) ++ [MouseUp]))
  /\
  (forall (s : State) (rect : DOMRect) (e0 : MouseEvent) (rnd : Q)
          (moves : list MouseEvent) (click : MouseEvent),
     containerRef s = Some rect ->
     idle s ->
     targetIsContainer e0 = true ->
     Exists (fun e => crosses (localPos rect e0) (localPos rect e)) moves ->
     hasMoved (run s (MouseDown e0 rnd :: map MouseMove moves ++ [MouseUp]))
     = true
     /\ step (run s (MouseDown e0 rnd :: map MouseMove moves ++ [MouseUp]))
             (Click click)
        = run s (MouseDown e0 rnd :: map MouseMove moves ++ [MouseUp]))
  /\
  (forall (s : State) (rect : DOMRect) (e0 : MouseEvent) (rnd : Q)
          (moves : list MouseEvent) (click : MouseEvent),
     containerRef s = Some rect ->
     idle s ->
     targetIsContainer e0 = true ->
     Forall (fun e => ~ crosses (localPos rect e0) (localPos rect e)) moves ->
     hasMoved (run s (MouseDown e0 rnd :: map MouseMove moves ++ [MouseUp]))
     = false
     /\ pills (step (run s (MouseDown e0 rnd
                              :: map MouseMove moves ++ [MouseUp]))
                    (Click click))
        = fst (splitAll (pos_x (localPos rect click))
                 (pos_y (localPos rect click))
                 (pills s) (nextIdRef s + 1)%Z)).
Proof.
  split; [|split].
  - intros s rect e0 pill first moves click Hc.
    assert (Hm : hasMoved (run s (PillMouseDown e0 pill
                 :: map MouseMove (first :: moves) ++ [MouseUp])) = true).
    { rewrite drag_run.
      destruct (handleMouseUp_frame
        (run (handleMouseMove (handlePillMouseDown s e0 pill) first)
             (map MouseMove moves))) as [_ [_ [_ [_ [_ [-> _]]]]]].
      apply moves_hasMoved.
      now apply (drag_move_sets_hasMoved _ rect pill). }
    split; [exact Hm | now apply handleClick_gated].
  - intros s rect e0 rnd moves click Hc [Hidle1 Hidle2] Ht Hex.
    assert (Hm : hasMoved (run s (MouseDown e0 rnd
                 :: map MouseMove moves ++ [MouseUp])) = true).
    { rewrite draw_run.
      destruct (handleMouseUp_frame
        (run (handleMouseDown s e0 rnd) (map MouseMove moves)))
        as [_ [_ [_ [_ [_ [-> _]]]]]].
      destruct (press_drafting s rect e0 rnd Hc Ht Hidle2) as [Hd [Hdraw _]].
      rewrite Hidle1 in Hdraw.
      now destruct (moves_crossing _ _ _ moves _ Hd Hdraw Hex). }
    split; [exact Hm | now apply handleClick_gated].
  - intros s rect e0 rnd moves click Hc [Hidle1 Hidle2] Ht Hall.
    rewrite draw_run.
    destruct (press_drafting s rect e0 rnd Hc Ht Hidle2) as [Hd [Hdraw Hm]].
    rewrite Hidle1 in Hdraw.
    destruct (moves_not_crossing _ _ _ moves _ Hd Hdraw Hm Hall)
      as [Hdraw' Hm'].
    apply (moves_drafting _ _ _ moves) in Hd.
    set (s2 := run (handleMouseDown s e0 rnd) (map MouseMove moves)) in *.
    destruct (handleMouseUp_frame s2)
      as [_ [F1 [F2 [_ [F3 [F4 [_ F5]]]]]]].
    destruct Hd as [Hp [_ [_ [Hc2 [Hn _]]]]].
    assert (Hflag : hasMoved (handleMouseUp s2) = false)
      by (rewrite F4; exact Hm').
    split; [exact Hflag|].
    cbn [step].
    destruct (handleClick_live (handleMouseUp s2) click F1 F2 Hflag)
      as [-> _].
    rewrite handleMouseUp_pills, Hdraw', F3, Hn, Hp.
    rewrite (getMouseCoords_local (handleMouseUp s2) rect click).
    + reflexivity.
    + rewrite F5. exact Hc2.
Qed.

Lemma click_after_moved_gesture_is_noop_witness :
  (hasMoved (run storeOfSquare
               (PillMouseDown (onPill 10 10) square100
                  :: map MouseMove [onPill 60 40] ++ [MouseUp])) = true
   /\ step (run storeOfSquare
              (PillMouseDown (onPill 10 10) square100
                 :: map MouseMove [onPill 60 40] ++ [MouseUp]))
           (Click (onPill 60 40))
      = run storeOfSquare
          (PillMouseDown (onPill 10 10) square100
             :: map MouseMove [onPill 60 40] ++ [MouseUp]))
  /\ (hasMoved (run storeOfSquare
                  (MouseDown (at_ 200 200) 0
                     :: map MouseMove [at_ 206 200] ++ [MouseUp])) = true
      /\ step (run storeOfSquare
                 (MouseDown (at_ 200 200) 0
                    :: map MouseMove [at_ 206 200] ++ [MouseUp]))
              (Click (at_ 206 200))
         = run storeOfSquare
             (MouseDown (at_ 200 200) 0
                :: map MouseMove [at_ 206 200] ++ [MouseUp]))
  /\ (hasMoved (run storeOfSquare
                  (MouseDown (at_ 200 200) 0
                     :: map MouseMove [at_ 203 200] ++ [MouseUp])) = false
      /\ pills (step (run storeOfSquare
                        (MouseDown (at_ 200 200) 0
                           :: map MouseMove [at_ 203 200] ++ [MouseUp]))
                     (Click (at_ 50 200)))
         = fst (splitAll (pos_x (localPos originRect (at_ 50 200)))
                  (pos_y (localPos originRect (at_ 50 200)))
                  (pills storeOfSquare) (nextIdRef storeOfSquare + 1)%Z)).
Proof.
  destruct click_after_moved_gesture_is_noop as [H1 [H2 H3]].
  split; [|split].
  - apply (H1 storeOfSquare originRect). reflexivity.
  - apply (H2 storeOfSquare originRect); try reflexivity.
    + split; reflexivity.
    + constructor. left. vm_compute. reflexivity.
  - apply (H3 storeOfSquare originRect); try reflexivity.
    + split; reflexivity.
    + constructor; [|constructor].
      intros [H | H]; vm_compute in H; discriminate.
Defined.

(** C5 as stated fails: a press, a move of 3 units and a release leave the
    flag unset, and the click that follows splits the pill whose vertical
    band holds the click point. *)
Lemma click_after_small_move_splits :
  ids (pills (run (initialState originRect) drawThenSmallMove)) = [0%Z]
  /\ hasMoved (run (initialState originRect) drawThenSmallMove) = false
  /\ ids (pills (step (run (initialState originRect) drawThenSmallMove)
                      (Click (at_ 203 200)))) = [2%Z; 3%Z]
  /\ step (run (initialState originRect) drawThenSmallMove)
          (Click (at_ 203 200))
     <> run (initialState originRect) drawThenSmallMove.
Proof.
  split; [reflexivity|]. split; [reflexivity|]. split; [reflexivity|].
  intro H. apply (f_equal (fun s => ids (pills s))) in H.
  vm_compute in H. discriminate.
Qed.

(** ** Origins stay non-negative *)

Lemma movePill_nonneg target offset mx my pill :
  nonneg pill -> nonneg (movePill target offset mx my pill).
Proof.
  intros [Hx Hy]. unfold movePill, nonneg.
  destruct (id pill =? id target)%Z; cbn [x y]; split; qarith.
Qed.

Lemma nudge_nonneg clickX clickY pill n :
  nonneg pill -> nonneg (nudge clickX clickY pill n).
Proof.
  intros [Hx Hy]. unfold nudge, nonneg, intersectsV, intersectsH. cbn [x y].
  split.
  - destruct (Qgeb clickX (x pill) && Qleb clickX (x pill + width pill)) eqn:E;
      [|assumption].
    destruct (Qltb _ clickX); qarith.
  - destruct (Qgeb clickY (y pill) && Qleb clickY (y pill + height pill)) eqn:E;
      [|assumption].
    destruct (Qltb _ clickY); qarith.
Qed.

Lemma splitX_nonneg clickX pill : 0 <= splitX clickX pill.
Proof. unfold splitX. qarith. Qed.

Lemma splitY_nonneg clickY pill : 0 <= splitY clickY pill.
Proof. unfold splitY. qarith. Qed.

Lemma splitPill_nonneg clickX clickY pill n :
  nonneg pill -> Forall nonneg (fst (splitPill clickX clickY pill n)).
Proof.
  intros Hp. pose proof Hp as [Hx Hy].
  pose proof (splitX_nonneg clickX pill).
  pose proof (splitY_nonneg clickY pill).
  unfold splitPill.
  destruct (canSplitV clickX pill), (canSplitH clickY pill); simpl.
  1-3: repeat constructor; cbn [x y]; lra.
  destruct (intersectsV clickX pill || intersectsH clickY pill); simpl;
    repeat constructor; auto; now apply nudge_nonneg.
Qed.

Lemma splitAll_nonneg clickX clickY l : forall n,
  Forall nonneg l -> Forall nonneg (fst (splitAll clickX clickY l n)).
Proof.
  induction l as [|pill rest IH]; intros n Hall.
  - constructor.
  - inversion Hall; subst. rewrite splitAll_cons. simpl.
    apply Forall_app. split; [now apply splitPill_nonneg | now apply IH].
Qed.

Lemma posInv_step rect s ev :
  posInv rect s -> pointerInSurface rect ev -> posInv rect (step s ev).
Proof.
  intros [Hc [Hp [Hd [Hsx Hsy]]]] Hev.
  destruct ev as [e | e rnd | e pill | | e |]; simpl.
  - (* MouseMove *)
    destruct Hev as [Hex Hey].
    destruct (handleMouseMove_frame s e) as [_ [Fs [Fc _]]].
    unfold posInv. rewrite Fs, Fc. split; [assumption|]. split; [|split].
    + destruct (handleMouseMove_pills s e) as [-> | [t [_ [_ ->]]]];
        [assumption|].
      apply Forall_map. eapply Forall_impl; [|exact Hp].
      intros p. apply movePill_nonneg.
    + unfold draft in *.
      destruct (handleMouseMove_currentPill s e) as [-> | [_ ->]];
        [assumption|].
      destruct (currentPill s) as [d|]; simpl; constructor; [|constructor].
      rewrite (getMouseCoords_local _ _ _ Hc).
      unfold nonneg, resizeDraft, localPos. cbn [x y pos_x pos_y].
      split; qarith.
    + now split.
  - (* MouseDown *)
    destruct (handleMouseDown_cases s e rnd) as [-> | [rect' [Hc' Ht]]].
    { unfold posInv. auto. }
    destruct Hev as [Hex Hey].
    rewrite (handleMouseDown_container _ _ _ _ Hc' Ht).
    rewrite (getMouseCoords_local _ _ _ Hc).
    unfold posInv, draft, nonneg, localPos. simpl.
    split; [assumption|]. split; [assumption|]. split.
    { constructor; [split; simpl; lra | constructor]. }
    split; lra.
  - (* PillMouseDown *)
    unfold posInv. simpl. auto.
  - (* MouseUp *)
    destruct (handleMouseUp_frame s) as [Hnone [_ [_ [_ [_ [_ [Fs Fc]]]]]]].
    unfold posInv, draft. rewrite handleMouseUp_pills, Hnone, Fs, Fc.
    split; [assumption|]. split; [|split; [constructor | now split]].
    destruct (isDrawing s); [|assumption].
    apply Forall_app. now split.
  - (* Click *)
    destruct (handleClick_cases s e) as [-> | [_ [_ [_ ->]]]].
    { unfold posInv. auto. }
    unfold posInv, draft. simpl.
    split; [assumption|]. split; [now apply splitAll_nonneg|].
    split; [exact Hd | now split].
  - (* TimerFires *)
    destruct (resetHasMoved_frame s) as [Fp [Fd [_ [Fs Fc]]]].
    unfold posInv, draft. rewrite Fp, Fd, Fs, Fc.
    split; [assumption|]. split; [assumption|]. split; [exact Hd | now split].
Qed.

Lemma posInv_initial rect : posInv rect (initialState rect).
Proof.
  unfold posInv, draft. simpl.
  split; [reflexivity|]. split; [constructor|]. split; [constructor|].
  split; lra.
Qed.

(** Where the invariant does hold: starting from the first render, as long
    as every press on the surface and every move carries a pointer at or
    after the surface's left and top edges, every pill of the store and the
    draft keep x >= 0 and y >= 0: the drag clamps, the draw takes the
    minimum of two non-negative coordinates, splits add non-negative
    offsets, and the nudge either clamps or moves past a click that is
    itself at or after the pill's origin. *)
Theorem origins_stay_nonnegative :
  forall (rect : DOMRect) (evs : list Event),
    Forall (pointerInSurface rect) evs ->
    Forall (fun p => 0 <= x p /\ 0 <= y p)
           (shapes (run (initialState rect) evs)).
Proof.
  intros rect evs Hall.
  pose proof (run_preserves (posInv rect) (pointerInSurface rect)
                (posInv_step rect) evs _ (posInv_initial rect) Hall)
    as [_ [Hp [Hd _]]].
  unfold shapes. apply Forall_app. split; assumption.
Qed.

Lemma origins_stay_nonnegative_witness :
  Forall (pointerInSurface originRect) drawDragNudge
  /\ Forall (fun p => 0 <= x p /\ 0 <= y p)
            (shapes (run (initialState originRect) drawDragNudge)).
Proof.
  assert (H : Forall (pointerInSurface originRect) drawDragNudge).
  { repeat constructor; simpl; vm_compute; discriminate. }
  split; [exact H|].
  apply (origins_stay_nonnegative originRect drawDragNudge H).
Defined.

(** C8.  The draw path does not clamp, unlike the drag and the nudge: a
    draw whose pointer ends 30 units left of the surface commits a pill at
    x = -30, and in a container whose rectangle starts half a pixel after
    the client origin a draw from a press reported at client (0, 0) commits
    a pill at (-1/2, -1/2). *)
Theorem draw_without_clamp_commits_negative_origin :
  map (fun p => (x p, y p, width p, height p))
      (pills (run (initialState originRect) drawLeavingSurface))
  = [(- (30), 0, 40, 40)]
  /\ ~ Forall nonneg (pills (run (initialState originRect) drawLeavingSurface))
  /\ Forall (fun p => x p == - (1 # 2) /\ y p == - (1 # 2))
            (pills (run (initialState halfPixelRect) drawFromFirstPixel))
  /\ List.length (pills (run (initialState halfPixelRect) drawFromFirstPixel))
     = 1%nat
  /\ ~ Forall nonneg
         (pills (run (initialState halfPixelRect) drawFromFirstPixel)).
Proof.
  split; [reflexivity|]. split; [|split; [|split]].
  - intro H. vm_compute in H. inversion H as [|? ? [Hx _] _].
    apply Hx. reflexivity.
  - vm_compute. repeat constructor.
  - reflexivity.
  - intro H. vm_compute in H. inversion H as [|? ? [Hx _] _].
    apply Hx. reflexivity.
Qed.

(** ** Ids: the counter only grows and no id comes back *)

Lemma ids_app l1 l2 : ids (l1 ++ l2) = ids l1 ++ ids l2.
Proof. apply map_app. Qed.

Lemma NoDup_app_disjoint {A : Type} (l1 l2 : list A) :
  NoDup (l1 ++ l2) -> forall a, In a l1 -> ~ In a l2.
Proof.
  induction l1 as [|b l1 IH]; intros Hnd a Hin; [contradiction|].
  simpl in Hnd. inversion Hnd as [|? ? Hnotin Hnd']; subst.
  destruct Hin as [-> | Hin].
  - intro H2. apply Hnotin, in_or_app. now right.
  - now apply IH.
Qed.

Lemma movePill_id target offset mx my pill :
  id (movePill target offset mx my pill) = id pill.
Proof. unfold movePill. now destruct (id pill =? id target)%Z. Qed.

Lemma handleMouseMove_ids s e :
  ids (shapes (handleMouseMove s e)) = ids (shapes s).
Proof.
  unfold shapes. rewrite !ids_app. f_equal.
  - destruct (handleMouseMove_pills s e) as [-> | [t [_ [_ ->]]]];
      [reflexivity|].
    unfold ids. rewrite map_map. apply map_ext. intro p. apply movePill_id.
  - unfold draft.
    destruct (handleMouseMove_currentPill s e) as [-> | [_ ->]];
      [reflexivity|].
    now destruct (currentPill s).
Qed.

Lemma ids_shapes s : ids (shapes s) = ids (pills s) ++ ids (draft s).
Proof. apply ids_app. Qed.

(** What one event does to the ids: the counter does not go down, every id
    in the new state is below the new counter, and it is either an id the
    old state held or one at or above the old counter. *)
Lemma idInv_step s ev :
  idInv s ->
  idInv (step s ev)
  /\ (nextIdRef s <= nextIdRef (step s ev))%Z
  /\ (forall i, In i (ids (shapes (step s ev))) ->
        In i (ids (shapes s)) \/ (nextIdRef s <= i)%Z).
Proof.
  intros [Hnd Hlt].
  assert (Hstore : forall i, In i (ids (pills s)) -> (i < nextIdRef s)%Z).
  { intros i Hi. apply Hlt. rewrite ids_shapes. apply in_or_app. now left. }
  assert (Hsame : idInv s /\ (nextIdRef s <= nextIdRef s)%Z
            /\ (forall i, In i (ids (shapes s)) ->
                  In i (ids (shapes s)) \/ (nextIdRef s <= i)%Z)).
  { split; [now split|]. split; [lia | auto]. }
  destruct ev as [e | e rnd | e pill | | e |]; cbn [step].
  - (* MouseMove *)
    destruct (handleMouseMove_frame s e) as [Fn _].
    unfold idInv. rewrite handleMouseMove_ids, Fn. exact Hsame.
  - (* MouseDown *)
    destruct (handleMouseDown_cases s e rnd) as [-> | [rect [Hc Ht]]];
      [exact Hsame|].
    rewrite (handleMouseDown_container _ _ _ _ Hc Ht).
    match goal with |- idInv ?t /\ _ => set (s' := t) end.
    assert (Hd' : ids (draft s') = [nextIdRef s]) by reflexivity.
    assert (Hp' : pills s' = pills s) by reflexivity.
    assert (Hn' : nextIdRef s' = (nextIdRef s + 1)%Z) by reflexivity.
    unfold idInv. rewrite !ids_shapes in *. rewrite Hd', Hp', Hn'.
    split; [split|split].
    + apply NoDup_app.
      * now apply NoDup_app_remove_r in Hnd.
      * repeat constructor. simpl. tauto.
      * intros i Hi [<- | []]. specialize (Hstore _ Hi). lia.
    + intros i Hi. apply in_app_or in Hi. destruct Hi as [Hi | [<- | []]].
      * specialize (Hstore _ Hi). lia.
      * lia.
    + lia.
    + intros i Hi. apply in_app_or in Hi. destruct Hi as [Hi | [<- | []]].
      * left. apply in_or_app. now left.
      * right. lia.
  - (* PillMouseDown *)
    exact Hsame.
  - (* MouseUp *)
    destruct (handleMouseUp_frame s) as [Hnone [_ [_ [_ [Fn _]]]]].
    assert (Hids : ids (shapes (handleMouseUp s)) = ids (shapes s)
                   \/ ids (shapes (handleMouseUp s)) = ids (pills s)).
    { unfold shapes, draft.
      rewrite handleMouseUp_pills, Hnone, !app_nil_r. fold (draft s).
      destruct (isDrawing s); [now left | now right]. }
    unfold idInv. rewrite Fn.
    destruct Hids as [-> | ->]; [exact Hsame|].
    rewrite ids_shapes in Hnd.
    split; [split|split].
    + now apply NoDup_app_remove_r in Hnd.
    + exact Hstore.
    + lia.
    + intros i Hi. left. rewrite ids_shapes. apply in_or_app. now left.
  - (* Click *)
    destruct (handleClick_cases s e) as [-> | [_ [_ [_ ->]]]];
      [exact Hsame|].
    set (cx := pos_x (getMouseCoords s e)).
    set (cy := pos_y (getMouseCoords s e)).
    match goal with |- idInv ?t /\ _ => set (s' := t) end.
    assert (Hd' : draft s' = draft s) by reflexivity.
    assert (Hp' : pills s' = fst (splitAll cx cy (pills s) (nextIdRef s)))
      by reflexivity.
    assert (Hn' : nextIdRef s' = snd (splitAll cx cy (pills s) (nextIdRef s)))
      by reflexivity.
    unfold idInv. rewrite !ids_shapes in *. rewrite Hd', Hp', Hn'.
    pose proof (splitAll_counter cx cy (pills s) (nextIdRef s)) as Hcnt.
    assert (Hnew : forall i,
      In i (ids (fst (splitAll cx cy (pills s) (nextIdRef s)))) ->
      In i (ids (pills s))
      \/ (nextIdRef s <= i < snd (splitAll cx cy (pills s) (nextIdRef s)))%Z)
      by (intro i; apply splitAll_ids).
    split; [split|split].
    + apply NoDup_app.
      * apply splitAll_NoDup; [now apply NoDup_app_remove_r in Hnd | exact Hstore].
      * now apply NoDup_app_remove_l in Hnd.
      * intros i Hi Hdraft.
        destruct (Hnew i Hi) as [Hold | Hrange].
        -- exact (NoDup_app_disjoint _ _ Hnd i Hold Hdraft).
        -- assert (i < nextIdRef s)%Z; [|lia].
           apply Hlt, in_or_app. now right.
    + intros i Hi. apply in_app_or in Hi. destruct Hi as [Hi | Hi].
      * destruct (Hnew i Hi) as [Hold | Hrange]; [|lia].
        specialize (Hstore i Hold). lia.
      * assert (i < nextIdRef s)%Z; [|lia].
        apply Hlt, in_or_app. now right.
    + exact Hcnt.
    + intros i Hi. apply in_app_or in Hi. destruct Hi as [Hi | Hi].
      * destruct (Hnew i Hi) as [Hold | Hrange]; [|right; lia].
        left. apply in_or_app. now left.
      * left. apply in_or_app. now right.
  - (* TimerFires *)
    destruct (resetHasMoved_frame s) as [Fp [Fd [Fn _]]].
    unfold idInv, shapes, draft. rewrite Fp, Fd, Fn. exact Hsame.
Qed.

Lemma idInv_initial rect : idInv (initialState rect).
Proof. split; [constructor | intros i []]. Qed.

Lemma idInv_run evs : forall s,
  idInv s ->
  idInv (run s evs)
  /\ (nextIdRef s <= nextIdRef (run s evs))%Z
  /\ (forall i, In i (ids (shapes (run s evs))) ->
        In i (ids (shapes s)) \/ (nextIdRef s <= i)%Z).
Proof.
  induction evs as [|ev evs IH]; intros s Hs.
  - split; [exact Hs|]. split; [simpl; lia | auto].
  - rewrite run_cons.
    destruct (idInv_step s ev Hs) as [Hs' [Hle Hnew]].
    destruct (IH _ Hs') as [Hs'' [Hle' Hnew']].
    split; [exact Hs''|]. split; [lia|].
    intros i Hi. destruct (Hnew' i Hi) as [Hold | Hge].
    + destruct (Hnew i Hold); [now left | right; assumption].
    + right. lia.
Qed.

(** The ids of every reachable store are distinct and below the counter:
    the side conditions under which the click pass was analysed. *)
Lemma reachable_store_ids rect evs :
  NoDup (ids (pills (run (initialState rect) evs)))
  /\ (forall i, In i (ids (pills (run (initialState rect) evs))) ->
        (i < nextIdRef (run (initialState rect) evs))%Z).
Proof.
  destruct (idInv_run evs _ (idInv_initial rect)) as [[Hnd Hlt] _].
  rewrite ids_shapes in *. split.
  - now apply NoDup_app_remove_r in Hnd.
  - intros i Hi. apply Hlt, in_or_app. now left.
Qed.

(** C9.  Every allocation returns the counter and advances it by one.  Over
    any run from the first render, cut at any point: the counter never goes
    down; the ids held later are pairwise distinct and below the counter;
    each of them is either an id already held at the cut or at least the
    counter at the cut, hence greater than every id allocated before it; and
    an id allocated before the cut that is no longer held there never comes
    back. *)
Theorem ids_increase_and_are_never_reused :
  (forall n : Z, postIncrement n = (n, (n + 1)%Z))
  /\ (forall x0 y0 w h c br n,
        id (fst (createPill x0 y0 w h c br n)) = n
        /\ snd (createPill x0 y0 w h c br n) = (n + 1)%Z)
  /\ forall (rect : DOMRect) (evs1 evs2 : list Event),
       (nextIdRef (run (initialState rect) evs1)
        <= nextIdRef (run (run (initialState rect) evs1) evs2))%Z
       /\ NoDup (ids (shapes (run (run (initialState rect) evs1) evs2)))
       /\ (forall i,
             In i (ids (shapes (run (run (initialState rect) evs1) evs2))) ->
             (i < nextIdRef (run (run (initialState rect) evs1) evs2))%Z
             /\ (In i (ids (shapes (run (initialState rect) evs1)))
                 \/ (nextIdRef (run (initialState rect) evs1) <= i)%Z))
       /\ (forall i,
             (i < nextIdRef (run (initialState rect) evs1))%Z ->
             ~ In i (ids (shapes (run (initialState rect) evs1))) ->
             ~ In i (ids (shapes (run (run (initialState rect) evs1) evs2)))).
Proof.
  split; [reflexivity|]. split; [intros; split; reflexivity|].
  intros rect evs1 evs2.
  destruct (idInv_run evs1 _ (idInv_initial rect)) as [H1 _].
  destruct (idInv_run evs2 _ H1) as [[Hnd Hlt] [Hle Hnew]].
  split; [exact Hle|]. split; [exact Hnd|]. split.
  - intros i Hi. split; [now apply Hlt | now apply Hnew].
  - intros i Hi Hout Hin. destruct (Hnew i Hin) as [Hold | Hge].
    + contradiction.
    + lia.
Qed.

Lemma ids_increase_and_are_never_reused_witness :
  (nextIdRef (run (initialState originRect) drawThenClickNearEdge) = 5%Z)
  /\ ids (shapes (run (initialState originRect) drawThenClickNearEdge))
     = [1%Z; 2%Z; 3%Z; 4%Z]
  /\ ~ In 0%Z (ids (shapes (run (run (initialState originRect)
                                   drawThenClickNearEdge)
                              drawAt300))).
Proof.
  split; [reflexivity|]. split; [reflexivity|].
  destruct ids_increase_and_are_never_reused as [_ [_ H]].
  destruct (H originRect drawThenClickNearEdge drawAt300)
    as [_ [_ [_ Hgone]]].
  apply Hgone.
  - vm_compute. reflexivity.
  - vm_compute. intuition discriminate.
Defined.

(** ** Presses that commit nothing still take an id *)

Lemma StronglySorted_prefix (l1 l2 : list Z) :
  StronglySorted Z.lt (l1 ++ l2) -> StronglySorted Z.lt l1.
Proof.
  induction l1 as [|a l1 IH]; intro H; [constructor|].
  simpl in H. apply StronglySorted_inv in H. destruct H as [Hs Hall].
  constructor; [now apply IH|].
  apply Forall_app in Hall. tauto.
Qed.

Lemma StronglySorted_snoc (l : list Z) (n : Z) :
  StronglySorted Z.lt l ->
  (forall i, In i l -> (i < n)%Z) ->
  StronglySorted Z.lt (l ++ [n]).
Proof.
  induction l as [|a l IH]; intros Hs Hlt; simpl.
  - repeat constructor.
  - apply StronglySorted_inv in Hs. destruct Hs as [Hs Hall].
    constructor.
    + apply IH; [assumption|]. intros i Hi. apply Hlt. now right.
    + apply Forall_app. split; [assumption|].
      constructor; [|constructor]. apply Hlt. now left.
Qed.

Lemma increasingInv_step s ev :
  increasingInv s ->
  match ev with Click e => handleClick s e = s | _ => True end ->
  increasingInv (step s ev).
Proof.
  intros [Hs Hlt] Hev.
  destruct ev as [e | e rnd | e pill | | e |]; cbn [step].
  - (* MouseMove *)
    destruct (handleMouseMove_frame s e) as [Fn _].
    unfold increasingInv. rewrite handleMouseMove_ids, Fn. now split.
  - (* MouseDown *)
    destruct (handleMouseDown_cases s e rnd) as [-> | [rect [Hc Ht]]];
      [now split|].
    rewrite (handleMouseDown_container _ _ _ _ Hc Ht).
    match goal with |- increasingInv ?t => set (s' := t) end.
    assert (Hd' : ids (draft s') = [nextIdRef s]) by reflexivity.
    assert (Hp' : pills s' = pills s) by reflexivity.
    assert (Hn' : nextIdRef s' = (nextIdRef s + 1)%Z) by reflexivity.
    unfold increasingInv. rewrite !ids_shapes in *. rewrite Hd', Hp', Hn'.
    assert (Hstore : forall i, In i (ids (pills s)) -> (i < nextIdRef s)%Z).
    { intros i Hi. apply Hlt, in_or_app. now left. }
    split.
    + apply StronglySorted_snoc; [|exact Hstore].
      now apply StronglySorted_prefix in Hs.
    + intros i Hi. apply in_app_or in Hi. destruct Hi as [Hi | [<- | []]].
      * specialize (Hstore _ Hi). lia.
      * lia.
  - (* PillMouseDown *)
    now split.
  - (* MouseUp *)
    destruct (handleMouseUp_frame s) as [Hnone [_ [_ [_ [Fn _]]]]].
    assert (Hids : ids (shapes (handleMouseUp s)) = ids (shapes s)
                   \/ ids (shapes (handleMouseUp s)) = ids (pills s)).
    { unfold shapes, draft.
      rewrite handleMouseUp_pills, Hnone, !app_nil_r. fold (draft s).
      destruct (isDrawing s); [now left | now right]. }
    unfold increasingInv. rewrite Fn.
    destruct Hids as [-> | ->]; [now split|].
    rewrite ids_shapes in *. split.
    + now apply StronglySorted_prefix in Hs.
    + intros i Hi. apply Hlt, in_or_app. now left.
  - (* Click *)
    rewrite Hev. now split.
  - (* TimerFires *)
    destruct (resetHasMoved_frame s) as [Fp [Fd [Fn _]]].
    unfold increasingInv, shapes, draft. rewrite Fp, Fd, Fn. now split.
Qed.

Lemma increasingInv_run evs : forall s,
  increasingInv s -> clicksChangeNothing s evs -> increasingInv (run s evs).
Proof.
  induction evs as [|ev evs IH]; intros s Hs Hev.
  - exact Hs.
  - destruct Hev as [Hev Hrest]. rewrite run_cons.
    apply IH; [now apply increasingInv_step | exact Hrest].
Qed.

(** C10, as amended.  A press on the empty surface takes the next id for
    the draft at once; when no move goes more than 5 units from the press
    point, the release commits nothing, yet the counter has advanced; so the
    ids in the store can skip values, as in a run whose store holds ids 0
    and 2.  The store lists its ids in increasing order as long as no click
    has split or nudged a pill. *)
Theorem press_allocates_id_even_if_discarded :
  (forall (s : State) (rect : DOMRect) (e : MouseEvent) (rnd : Q),
     containerRef s = Some rect ->
     targetIsContainer e = true ->
     nextIdRef (handleMouseDown s e rnd) = (nextIdRef s + 1)%Z
     /\ exists d, currentPill (handleMouseDown s e rnd) = Some d
                  /\ id d = nextIdRef s)
  /\
  (forall (s : State) (rect : DOMRect) (e : MouseEvent) (rnd : Q)
          (moves : list MouseEvent),
     containerRef s = Some rect ->
     targetIsContainer e = true ->
     idle s ->
     Forall (fun m => ~ crosses (localPos rect e) (localPos rect m)) moves ->
     pills (run s (MouseDown e rnd :: map MouseMove moves ++ [MouseUp]))
     = pills s
     /\ currentPill
          (run s (MouseDown e rnd :: map MouseMove moves ++ [MouseUp])) = None
     /\ nextIdRef
          (run s (MouseDown e rnd :: map MouseMove moves ++ [MouseUp]))
        = (nextIdRef s + 1)%Z)
  /\ ids (pills (run (initialState originRect) drawPressDraw)) = [0%Z; 2%Z]
  /\ (forall (rect : DOMRect) (evs : list Event),
        clicksChangeNothing (initialState rect) evs ->
        StronglySorted Z.lt (ids (pills (run (initialState rect) evs)))).
Proof.
  split; [|split; [|split]].
  - intros s rect e rnd Hc Ht.
    rewrite (handleMouseDown_container _ _ _ _ Hc Ht). simpl.
    split; [reflexivity|]. eexists. split; reflexivity.
  - intros s rect e rnd moves Hc Ht [Hidle1 Hidle2] Hall.
    rewrite draw_run.
    destruct (press_drafting s rect e rnd Hc Ht Hidle2) as [Hd [Hdraw Hm]].
    rewrite Hidle1 in Hdraw.
    destruct (moves_not_crossing _ _ _ moves _ Hd Hdraw Hm Hall)
      as [Hdraw' _].
    apply (moves_drafting _ _ _ moves) in Hd.
    destruct (handleMouseUp_frame
                (run (handleMouseDown s e rnd) (map MouseMove moves)))
      as [Hnone [_ [_ [_ [Hn _]]]]].
    destruct Hd as [Hp [_ [_ [_ [Hn' _]]]]].
    rewrite handleMouseUp_pills, Hdraw', Hnone, Hn, Hn', Hp.
    repeat split.
  - reflexivity.
  - intros rect evs Hev.
    assert (H0 : increasingInv (initialState rect)).
    { split; [constructor | intros i []]. }
    destruct (increasingInv_run evs _ H0 Hev) as [Hs _].
    rewrite ids_shapes in Hs. now apply StronglySorted_prefix in Hs.
Qed.

Lemma press_allocates_id_even_if_discarded_witness :
  (nextIdRef (handleMouseDown storeOfSquare (at_ 200 200) 0) = (1 + 1)%Z
   /\ exists d, currentPill (handleMouseDown storeOfSquare (at_ 200 200) 0)
                = Some d /\ id d = 1%Z)
  /\ (pills (run storeOfSquare
               (MouseDown (at_ 200 200) 0
                  :: map MouseMove [at_ 203 200] ++ [MouseUp]))
      = [square100]
      /\ currentPill
           (run storeOfSquare
              (MouseDown (at_ 200 200) 0
                 :: map MouseMove [at_ 203 200] ++ [MouseUp])) = None
      /\ nextIdRef
           (run storeOfSquare
              (MouseDown (at_ 200 200) 0
                 :: map MouseMove [at_ 203 200] ++ [MouseUp]))
         = (1 + 1)%Z)
  /\ clicksChangeNothing (initialState originRect) drawPressDraw
  /\ StronglySorted Z.lt
       (ids (pills (run (initialState originRect) drawPressDraw))).
Proof.
  destruct press_allocates_id_even_if_discarded as [H1 [H2 [_ H3]]].
  assert (Hev : clicksChangeNothing (initialState originRect) drawPressDraw).
  { vm_compute. repeat split. }
  split; [|split; [|split]].
  - apply (H1 storeOfSquare originRect); reflexivity.
  - apply (H2 storeOfSquare originRect); try reflexivity.
    + split; reflexivity.
    + constructor; [|constructor].
      intros [H | H]; vm_compute in H; discriminate.
  - exact Hev.
  - apply (H3 originRect drawPressDraw Hev).
Defined.

(** C10 as stated fails where it calls the store's ids increasing: a nudge
    (like a split) puts its fresh id in the original's place, ahead of the
    older ids that follow it in the store. *)
Lemma nudge_puts_fresh_id_before_older_ids :
  ids (pills (run (initialState originRect) drawTwoNudgeFirst))
  = [2%Z; 1%Z]
  /\ ~ StronglySorted Z.lt
         (ids (pills (run (initialState originRect) drawTwoNudgeFirst))).
Proof.
  split; [reflexivity|].
  intro H. vm_compute in H. apply StronglySorted_inv in H.
  destruct H as [_ H]. inversion H as [|? ? Hlt _]. discriminate Hlt.
Qed.

(** * Further properties of the handlers *)

(** ** getRandomColor *)

Lemma random_index_in_range rnd :
  0 <= rnd -> rnd < 1 ->
  (Z.to_nat (Qfloor (rnd * inject_Z (Z.of_nat (List.length colors))))
   < List.length colors)%nat.
Proof.
  intros H0 H1.
  set (v := rnd * inject_Z (Z.of_nat (List.length colors))).
  assert (Hv : 0 <= v /\ v < 6).
  { unfold v. simpl List.length. change (inject_Z (Z.of_nat 6)) with 6.
    split; lra. }
  assert (Hlo : (0 <= Qfloor v)%Z).
  { change 0%Z with (Qfloor 0). apply Qfloor_resp_le. tauto. }
  assert (Hhi : (Qfloor v < 6)%Z).
  { pose proof (Qfloor_le v) as Hle.
    assert (Hq : inject_Z (Qfloor v) < inject_Z 6).
    { change (inject_Z 6) with 6. lra. }
    now rewrite <- Zlt_Qlt in Hq. }
  simpl List.length. lia.
Qed.

(** X1.  For every value [Math.random()] can return, that is every [rnd]
    with 0 <= rnd < 1, the colour picked is one of the six of the palette
    (the index never runs past the end of [colors]). *)
Theorem getRandomColor_in_palette :
  forall rnd : Q, 0 <= rnd -> rnd < 1 -> In (getRandomColor rnd) colors.
Proof.
  intros rnd H0 H1. unfold getRandomColor.
  apply nth_In. now apply random_index_in_range.
Qed.

Lemma getRandomColor_in_palette_witness :
  In (getRandomColor (5 # 6)) colors
  /\ getRandomColor (5 # 6) = "#ec4899"%string.
Proof.
  split; [|reflexivity].
  apply (getRandomColor_in_palette (5 # 6)); vm_compute; congruence.
Defined.

(** ** The click pass: counts, areas, colours *)

Lemma splitPill_count clickX clickY pill n :
  (1 <= List.length (fst (splitPill clickX clickY pill n)) <= 4)%nat.
Proof.
  unfold splitPill.
  destruct (canSplitV clickX pill), (canSplitH clickY pill); simpl; try lia.
  destruct (intersectsV clickX pill || intersectsH clickY pill); simpl; lia.
Qed.

Lemma splitAll_count clickX clickY l : forall n,
  (List.length l <= List.length (fst (splitAll clickX clickY l n))
   <= 4 * List.length l)%nat.
Proof.
  induction l as [|pill rest IH]; intro n.
  - simpl. lia.
  - rewrite splitAll_cons. simpl fst. rewrite length_app. simpl List.length.
    pose proof (splitPill_count clickX clickY pill n).
    specialize (IH (snd (splitPill clickX clickY pill n))). lia.
Qed.

Lemma step_length s ev :
  (List.length (pills s) <= List.length (pills (step s ev)))%nat.
Proof.
  destruct ev as [e | e rnd | e pill | | e |]; cbn [step].
  - destruct (handleMouseMove_pills s e) as [-> | [t [_ [_ ->]]]];
      [lia | rewrite length_map; lia].
  - destruct (handleMouseDown_cases s e rnd) as [-> | [rect [Hc Ht]]];
      [lia|].
    rewrite (handleMouseDown_container _ _ _ _ Hc Ht). simpl. lia.
  - simpl. lia.
  - rewrite handleMouseUp_pills. destruct (isDrawing s); [|lia].
    rewrite length_app. lia.
  - destruct (handleClick_cases s e) as [-> | [_ [_ [_ ->]]]]; [lia|].
    simpl. apply splitAll_count.
  - destruct (resetHasMoved_frame s) as [-> _]. lia.
Qed.

(** X2.  No event removes a pill: over every run, from any state, the
    store has at least as many pills at the end as at the start; and one
    click pass turns a store of k pills into one of at least k and at most
    4k pills. *)
Theorem store_never_shrinks :
  (forall (s : State) (evs : list Event),
     (List.length (pills s) <= List.length (pills (run s evs)))%nat)
  /\ (forall (clickX clickY : Q) (l : list Pill) (n : Z),
        (List.length l <= List.length (fst (splitAll clickX clickY l n))
         <= 4 * List.length l)%nat).
Proof.
  split.
  - intros s evs. revert s.
    induction evs as [|ev evs IH]; intro s; [simpl; lia|].
    rewrite run_cons. pose proof (step_length s ev).
    specialize (IH (step s ev)). lia.
  - intros. apply splitAll_count.
Qed.

Lemma totalArea_app l1 l2 :
  totalArea (l1 ++ l2) == totalArea l1 + totalArea l2.
Proof.
  induction l1 as [|p l1 IH]; simpl.
  - lra.
  - rewrite IH. lra.
Qed.

Lemma splitPill_area clickX clickY pill n :
  totalArea (fst (splitPill clickX clickY pill n)) == area pill.
Proof.
  unfold splitPill.
  destruct (canSplitV clickX pill), (canSplitH clickY pill); simpl;
    try (unfold area; simpl; ring).
  destruct (intersectsV clickX pill || intersectsH clickY pill); simpl;
    unfold area; simpl; ring.
Qed.

Lemma splitAll_area clickX clickY l : forall n,
  totalArea (fst (splitAll clickX clickY l n)) == totalArea l.
Proof.
  induction l as [|pill rest IH]; intro n.
  - reflexivity.
  - rewrite splitAll_cons. simpl fst. rewrite totalArea_app.
    rewrite splitPill_area, IH. reflexivity.
Qed.

Lemma movePill_area target offset mx my l :
  totalArea (map (movePill target offset mx my) l) == totalArea l.
Proof.
  induction l as [|p l IH]; simpl; [reflexivity|].
  rewrite IH. unfold area.
  destruct (movePill_size target offset mx my p) as [-> ->]. reflexivity.
Qed.

Lemma splitAll_pixels clickX clickY l : forall n,
  Forall (pixelPill PIXEL_MAX) l ->
  pixelWithin PIXEL_MAX clickX ->
  pixelWithin PIXEL_MAX clickY ->
  Forall (pixelPill (4 * PIXEL_MAX)) (fst (splitAll clickX clickY l n)).
Proof.
  induction l as [|pill rest IH]; intros n Hall Hcx Hcy.
  - constructor.
  - inversion Hall; subst. rewrite splitAll_cons. simpl fst.
    apply Forall_app. split; [now apply splitPill_pixels | now apply IH].
Qed.

(** X3.  The total area of the store changes only when a release commits
    a draft.  A click pass over a store on whole pixels, at a click point
    on whole pixels, leaves the sum of width x height as it was, whatever
    it splits or nudges, and leaves the store on whole pixels; a move (drag
    included), a press and the deferred reset copy the sizes and leave the
    sum as it was; a release adds the draft's area when a draw is going
    on. *)
Theorem store_area_changes_only_on_commit :
  (forall (clickX clickY : Q) (l : list Pill) (n : Z),
     Forall (pixelPill PIXEL_MAX) l ->
     pixelWithin PIXEL_MAX clickX ->
     pixelWithin PIXEL_MAX clickY ->
     totalArea (fst (splitAll clickX clickY l n)) == totalArea l
     /\ Forall (pixelPill (4 * PIXEL_MAX)) (fst (splitAll clickX clickY l n)))
  /\ (forall (s : State) (ev : Event),
        match ev with Click _ => False | _ => True end ->
        totalArea (pills (step s ev))
        == totalArea (pills s)
           + match ev with
             | MouseUp => if isDrawing s then totalArea (draft s) else 0
             | _ => 0
             end).
Proof.
  split.
  - intros clickX clickY l n Hall Hcx Hcy.
    split; [apply splitAll_area | now apply splitAll_pixels].
  - intros s ev Hev.
    destruct ev as [e | e rnd | e pill | | e |]; cbn [step];
      try contradiction.
    + destruct (handleMouseMove_pills s e) as [-> | [t [_ [_ ->]]]];
        [lra | rewrite movePill_area; lra].
    + destruct (handleMouseDown_cases s e rnd) as [-> | [rect [Hc Ht]]];
        [lra|].
      rewrite (handleMouseDown_container _ _ _ _ Hc Ht). simpl. lra.
    + simpl. lra.
    + rewrite handleMouseUp_pills. destruct (isDrawing s); [|lra].
      apply totalArea_app.
    + destruct (resetHasMoved_frame s) as [-> _]. lra.
Qed.

Lemma store_area_changes_only_on_commit_witness :
  (totalArea (fst (splitAll 50 50 [square100; farPill] 2%Z))
   == totalArea [square100; farPill]
   /\ Forall (pixelPill (4 * PIXEL_MAX))
             (fst (splitAll 50 50 [square100; farPill] 2%Z)))
  /\ totalArea (pills (step storeOfSquare MouseUp))
     == totalArea (pills storeOfSquare)
        + (if isDrawing storeOfSquare
           then totalArea (draft storeOfSquare) else 0).
Proof.
  destruct store_area_changes_only_on_commit as [H1 H2]. split.
  - apply (H1 50 50 [square100; farPill] 2%Z); try reflexivity.
    repeat constructor.
  - apply (H2 storeOfSquare MouseUp). exact I.
Defined.

Lemma splitPill_colors clickX clickY pill n :
  fst (splitPill clickX clickY pill n) <> []
  /\ Forall (fun q => color q = color pill)
            (fst (splitPill clickX clickY pill n)).
Proof.
  unfold splitPill.
  destruct (canSplitV clickX pill), (canSplitH clickY pill); simpl;
    try (split; [discriminate | repeat constructor]).
  destruct (intersectsV clickX pill || intersectsH clickY pill); simpl;
    (split; [discriminate | repeat constructor]).
Qed.

(** X4.  A click neither invents nor loses a colour: every pill of the
    result has the colour of some pill of the store it was computed from,
    and every pill of that store has its colour on some pill of the
    result. *)
Theorem click_pass_keeps_colours :
  forall (clickX clickY : Q) (l : list Pill) (n : Z),
    (forall q, In q (fst (splitAll clickX clickY l n)) ->
       exists p, In p l /\ color q = color p)
    /\ (forall p, In p l ->
          exists q, In q (fst (splitAll clickX clickY l n))
                    /\ color q = color p).
Proof.
  intros clickX clickY l. induction l as [|pill rest IH]; intro n.
  - split; intros ? [].
  - rewrite splitAll_cons. simpl fst.
    destruct (splitPill_colors clickX clickY pill n) as [Hne Hcol].
    destruct (IH (snd (splitPill clickX clickY pill n))) as [IH1 IH2].
    split.
    + intros q Hq. apply in_app_or in Hq. destruct Hq as [Hq | Hq].
      * exists pill. split; [now left|].
        rewrite Forall_forall in Hcol. now apply Hcol.
      * destruct (IH1 q Hq) as [p [Hp Hc]]. exists p. split; [now right|auto].
    + intros p [<- | Hp].
      * destruct (fst (splitPill clickX clickY pill n)) as [|q qs] eqn:E;
          [contradiction|].
        exists q. split; [now left|]. now inversion Hcol.
      * destruct (IH2 p Hp) as [q [Hq Hc]]. exists q.
        split; [apply in_or_app; now right | auto].
Qed.

Lemma click_pass_keeps_colours_witness :
  (exists p, In p [square100; farPill]
             /\ color (nudge 5 5 square100 2%Z) = color p)
  /\ exists q, In q (fst (splitAll 5 5 [square100; farPill] 2%Z))
               /\ color q = color farPill.
Proof.
  destruct (click_pass_keeps_colours 5 5 [square100; farPill] 2%Z)
    as [H1 H2].
  split.
  - apply H1. left. reflexivity.
  - apply H2. right. left. reflexivity.
Defined.

Lemma splitPill_geometry clickX clickY pill n m :
  map geometry (fst (splitPill clickX clickY pill n))
  = map geometry (fst (splitPill clickX clickY pill m)).
Proof.
  unfold splitPill.
  destruct (canSplitV clickX pill), (canSplitH clickY pill); simpl;
    try reflexivity.
  destruct (intersectsV clickX pill || intersectsH clickY pill); reflexivity.
Qed.

(** X5.  Each pill is decided on its own, against the original click
    point: apart from the ids, the result of the click pass is the
    concatenation, in store order, of what each pill alone would give,
    whatever the other pills are and wherever the counter stands. *)
Theorem click_pass_is_pointwise :
  forall (clickX clickY : Q) (l : list Pill) (n : Z),
    map geometry (fst (splitAll clickX clickY l n))
    = flat_map (fun p => map geometry (fst (splitPill clickX clickY p 0%Z))) l.
Proof.
  intros clickX clickY l. induction l as [|pill rest IH]; intro n.
  - reflexivity.
  - rewrite splitAll_cons. simpl fst. rewrite map_app. simpl flat_map.
    rewrite IH. f_equal. apply splitPill_geometry.
Qed.

(** ** After a split, after a nudge *)

Lemma canSplitV_false_iff clickX q :
  ~ (20 <= splitX clickX q /\ splitX clickX q <= width q - 20) ->
  canSplitV clickX q = false.
Proof.
  intro H. destruct (canSplitV clickX q) eqn:E; [|reflexivity].
  apply canSplitV_iff in E. contradiction.
Qed.

Lemma canSplitH_false_iff clickY q :
  ~ (20 <= splitY clickY q /\ splitY clickY q <= height q - 20) ->
  canSplitH clickY q = false.
Proof.
  intro H. destruct (canSplitH clickY q) eqn:E; [|reflexivity].
  apply canSplitH_iff in E. contradiction.
Qed.

Lemma intersectsV_true clickX q :
  x q <= clickX -> clickX <= x q + width q -> intersectsV clickX q = true.
Proof.
  intros H1 H2. unfold intersectsV.
  apply andb_true_iff. split; [now apply Qgeb_true | now apply Qleb_true].
Qed.

Lemma intersectsH_true clickY q :
  y q <= clickY -> clickY <= y q + height q -> intersectsH clickY q = true.
Proof.
  intros H1 H2. unfold intersectsH.
  apply andb_true_iff. split; [now apply Qgeb_true | now apply Qleb_true].
Qed.

(** X6.  On whole pixels, the pieces of a split cannot be split again by
    the same click point on the axis that was cut: the cut runs along an
    edge of each piece, so on that axis the click still lies in the piece's
    band but fails the margin (a second click at the same point nudges the
    pieces or splits them on the other axis only). *)
Theorem split_pieces_resist_same_click :
  forall (clickX clickY : Q) (pill : Pill) (n : Z) (q : Pill),
    pixelPill PIXEL_MAX pill ->
    pixelWithin PIXEL_MAX clickX ->
    pixelWithin PIXEL_MAX clickY ->
    In q (fst (splitPill clickX clickY pill n)) ->
    pixelPill (4 * PIXEL_MAX) q
    /\ (canSplitV clickX pill = true ->
          canSplitV clickX q = false /\ intersectsV clickX q = true)
    /\ (canSplitH clickY pill = true ->
          canSplitH clickY q = false /\ intersectsH clickY q = true).
Proof.
  intros clickX clickY pill n q Hpill Hcx Hcy Hin.
  split.
  { pose proof (splitPill_pixels clickX clickY pill n Hpill Hcx Hcy) as Hall.
    rewrite Forall_forall in Hall. now apply Hall. }
  clear Hpill Hcx Hcy.
  unfold splitPill in Hin.
  destruct (canSplitV clickX pill) eqn:HV;
    destruct (canSplitH clickY pill) eqn:HH; simpl in Hin;
    try (apply canSplitV_iff in HV; destruct HV as [HV1 HV2];
         unfold splitX in HV1, HV2);
    try (apply canSplitH_iff in HH; destruct HH as [HH1 HH2];
         unfold splitY in HH1, HH2);
    (split; [intro Hv | intro Hh]; try discriminate).
  - destruct Hin as [<- | [<- | [<- | [<- | []]]]];
      (split; [apply canSplitV_false_iff | apply intersectsV_true]);
      unfold splitX; cbn [x y width height]; try intros [G1 G2]; qarith.
  - destruct Hin as [<- | [<- | [<- | [<- | []]]]];
      (split; [apply canSplitH_false_iff | apply intersectsH_true]);
      unfold splitY; cbn [x y width height]; try intros [G1 G2]; qarith.
  - destruct Hin as [<- | [<- | []]];
      (split; [apply canSplitV_false_iff | apply intersectsV_true]);
      unfold splitX; cbn [x y width height]; try intros [G1 G2]; qarith.
  - destruct Hin as [<- | [<- | []]];
      (split; [apply canSplitH_false_iff | apply intersectsH_true]);
      unfold splitY; cbn [x y width height]; try intros [G1 G2]; qarith.
Qed.

Lemma split_pieces_resist_same_click_witness :
  pixelPill (4 * PIXEL_MAX)
    (mkPill 1 0 0 50 50 "#ef4444" (Some "20px 0 0 0"%string))
  /\ (canSplitV 50 (mkPill 1 0 0 50 50 "#ef4444" (Some "20px 0 0 0"%string))
      = false
      /\ intersectsV 50
           (mkPill 1 0 0 50 50 "#ef4444" (Some "20px 0 0 0"%string))
         = true)
  /\ (canSplitH 50 (mkPill 1 0 0 50 50 "#ef4444" (Some "20px 0 0 0"%string))
      = false
      /\ intersectsH 50
           (mkPill 1 0 0 50 50 "#ef4444" (Some "20px 0 0 0"%string))
         = true).
Proof.
  destruct (split_pieces_resist_same_click 50 50 square100 1%Z
              (mkPill 1 0 0 50 50 "#ef4444" (Some "20px 0 0 0"%string)))
    as [Hp [HV HH]].
  - repeat split; reflexivity.
  - reflexivity.
  - reflexivity.
  - left. reflexivity.
  - split; [exact Hp|]. split; [apply HV | apply HH]; reflexivity.
Defined.

(** X7.  A nudge on an axis takes the pill out of the click's band on that
    axis, except when the move towards the origin was clamped at 0: if the
    click is not past the pill's centre, or if clickX - width - 10 >= 0,
    the nudged pill no longer intersects the vertical line through the
    click (and likewise for y). *)
Theorem nudge_leaves_band_unless_clamped :
  forall (clickX clickY : Q) (pill : Pill) (n : Z),
    (intersectsV clickX pill = true ->
     (x pill + width pill / 2 < clickX -> 0 <= clickX - width pill - 10) ->
     intersectsV clickX (nudge clickX clickY pill n) = false)
    /\ (intersectsH clickY pill = true ->
        (y pill + height pill / 2 < clickY -> 0 <= clickY - height pill - 10) ->
        intersectsH clickY (nudge clickX clickY pill n) = false).
Proof.
  intros clickX clickY pill n. split.
  - intros Hi Hclamp. unfold nudge. rewrite Hi.
    unfold intersectsV. cbn [x y width height].
    destruct (Qltb (x pill + width pill / 2) clickX) eqn:E.
    + apply Qltb_true in E. specialize (Hclamp E).
      apply andb_false_iff.
      right. apply Qleb_false. qarith.
    + apply andb_false_iff. left. apply Qgeb_false. lra.
  - intros Hi Hclamp. unfold nudge. rewrite Hi.
    unfold intersectsH. cbn [x y width height].
    destruct (Qltb (y pill + height pill / 2) clickY) eqn:E.
    + apply Qltb_true in E. specialize (Hclamp E).
      apply andb_false_iff.
      right. apply Qleb_false. qarith.
    + apply andb_false_iff. left. apply Qgeb_false. lra.
Qed.

Lemma nudge_leaves_band_unless_clamped_witness :
  intersectsV 5 (nudge 5 5 square100 1%Z) = false
  /\ intersectsH 5 (nudge 5 5 square100 1%Z) = false.
Proof.
  destruct (nudge_leaves_band_unless_clamped 5 5 square100 1%Z) as [HV HH].
  split; [apply HV | apply HH]; try reflexivity;
    intro H; vm_compute in H; discriminate.
Defined.

(** ** The draft while drawing *)

(** X8.  While drawing on whole pixels (press point and pointer whole
    numbers of magnitude at most 2^50), the draft stays on whole pixels and
    its rectangle contains both the press point and the pointer; on an axis
    where they are at least [MIN_SIZE] apart it spans exactly from one to
    the other, and otherwise it is [MIN_SIZE] wide starting at the smaller
    of the two. *)
Theorem draft_contains_start_and_pointer :
  forall (start : Pos) (mx my : Q) (prev : Pill),
    pixelWithin PIXEL_MAX (pos_x start) ->
    pixelWithin PIXEL_MAX (pos_y start) ->
    pixelWithin PIXEL_MAX mx ->
    pixelWithin PIXEL_MAX my ->
    pixelPill (2 * PIXEL_MAX) (resizeDraft start mx my prev)
    /\ inBounds (pos_x start) (pos_y start) (resizeDraft start mx my prev)
    /\ inBounds mx my (resizeDraft start mx my prev)
    /\ (MIN_SIZE <= Math_abs (mx - pos_x start) ->
          x (resizeDraft start mx my prev)
            + width (resizeDraft start mx my prev)
          == Math_max (pos_x start) mx)
    /\ (MIN_SIZE <= Math_abs (my - pos_y start) ->
          y (resizeDraft start mx my prev)
            + height (resizeDraft start mx my prev)
          == Math_max (pos_y start) my)
    /\ (Math_abs (mx - pos_x start) <= MIN_SIZE ->
          width (resizeDraft start mx my prev) == MIN_SIZE)
    /\ (Math_abs (my - pos_y start) <= MIN_SIZE ->
          height (resizeDraft start mx my prev) == MIN_SIZE).
Proof.
  intros start mx my prev Hsx Hsy Hmx Hmy.
  split.
  { unfold pixelPill, resizeDraft, MIN_SIZE. cbn [x y width height].
    repeat split; pixels. }
  clear Hsx Hsy Hmx Hmy.
  unfold inBounds, resizeDraft, MIN_SIZE. cbn [x y width height].
  split; [repeat split; qarith|]. split; [repeat split; qarith|].
  split; [intro H; qarith|]. split; [intro H; qarith|].
  split; intro H; qarith.
Qed.

Lemma draft_contains_start_and_pointer_witness :
  pixelPill (2 * PIXEL_MAX) (resizeDraft (mkPos 100 100) 300 110 square100)
  /\ x (resizeDraft (mkPos 100 100) 300 110 square100)
       + width (resizeDraft (mkPos 100 100) 300 110 square100)
     == Math_max 100 300
  /\ height (resizeDraft (mkPos 100 100) 300 110 square100) == MIN_SIZE.
Proof.
  destruct (draft_contains_start_and_pointer (mkPos 100 100) 300 110
              square100) as [Hp [_ [_ [Hx [_ [_ Hh]]]]]];
    try reflexivity.
  split; [exact Hp|].
  split; [apply Hx | apply Hh]; vm_compute; discriminate.
Defined.

(** ** Dragging *)

Lemma handleMouseMove_dragging s rect target e :
  containerRef s = Some rect ->
  isDragging s = true ->
  draggedPill s = Some target ->
  pills (handleMouseMove s e)
  = map (movePill target (dragOffset s)
           (pos_x (localPos rect e)) (pos_y (localPos rect e)))
        (pills s).
Proof.
  intros Hc Hdrag Ht. unfold handleMouseMove. cbv zeta.
  rewrite (getMouseCoords_local _ _ e Hc), Hc, Hdrag, Ht.
  handler_cases; reflexivity.
Qed.

Lemma movePill_twice target offset a b a' b' pill :
  movePill target offset a' b' (movePill target offset a b pill)
  = movePill target offset a' b' pill.
Proof.
  unfold movePill. destruct (id pill =? id target)%Z eqn:E; simpl.
  - now rewrite E.
  - now rewrite E.
Qed.

(** X9.  On whole pixels (container rectangle, pressed pill's origin and
    both pointers whole numbers of magnitude at most 2^50), pressing on a
    pill and moving drags exactly that pill: the store keeps its length,
    order and ids, every pill keeps its size, colour and corner style,
    every pill with another id is untouched, and a pill with the pressed
    pill's id gets the pressed pill's origin shifted by the pointer's
    displacement since the press, each coordinate clamped at 0, which is
    again a whole pixel. *)
Theorem drag_moves_only_the_pressed_pill :
  forall (s : State) (rect : DOMRect) (e0 : MouseEvent) (pill : Pill)
         (e1 : MouseEvent),
    containerRef s = Some rect ->
    pixelWithin PIXEL_MAX (left rect) /\ pixelWithin PIXEL_MAX (top rect) ->
    pixelWithin PIXEL_MAX (x pill) /\ pixelWithin PIXEL_MAX (y pill) ->
    pixelWithin PIXEL_MAX (clientX e0) /\ pixelWithin PIXEL_MAX (clientY e0) ->
    pixelWithin PIXEL_MAX (clientX e1) /\ pixelWithin PIXEL_MAX (clientY e1) ->
    Forall2
      (fun q q' =>
         id q' = id q /\ width q' = width q /\ height q' = height q
         /\ color q' = color q /\ borderRadius q' = borderRadius q
         /\ (id q <> id pill -> q' = q)
         /\ (id q = id pill ->
               x q' == Math_max 0 (x pill + (clientX e1 - clientX e0))
               /\ y q' == Math_max 0 (y pill + (clientY e1 - clientY e0))
               /\ pixelWithin (5 * PIXEL_MAX) (x q')
               /\ pixelWithin (5 * PIXEL_MAX) (y q')))
      (pills s)
      (pills (run s [PillMouseDown e0 pill; MouseMove e1])).
Proof.
  intros s rect e0 pill e1 Hc [Hl Ht] [Hpx Hpy] [Hx0 Hy0] [Hx1 Hy1].
  change (run s [PillMouseDown e0 pill; MouseMove e1])
    with (handleMouseMove (handlePillMouseDown s e0 pill) e1).
  rewrite (handleMouseMove_dragging _ rect pill e1); try reflexivity;
    [|exact Hc].
  change (pills (handlePillMouseDown s e0 pill)) with (pills s).
  change (dragOffset (handlePillMouseDown s e0 pill))
    with (mkPos (pos_x (getMouseCoords s e0) - x pill)
                (pos_y (getMouseCoords s e0) - y pill)).
  rewrite (getMouseCoords_local _ _ e0 Hc).
  induction (pills s) as [|q l IH]; simpl; constructor; [|exact IH].
  unfold movePill. destruct (id q =? id pill)%Z eqn:E.
  - apply Z.eqb_eq in E.
    cbn [id x y width height color borderRadius pos_x pos_y].
    do 5 (split; [reflexivity|]). split; [intro; contradiction|].
    intros _. unfold localPos. cbn [pos_x pos_y].
    split; [|split; [|split]]; [| |pixels|pixels]; clear - e0; qarith.
  - apply Z.eqb_neq in E.
    do 5 (split; [reflexivity|]). split; [reflexivity|].
    intro; contradiction.
Qed.

Lemma drag_moves_only_the_pressed_pill_witness :
  Forall2
    (fun q q' =>
       id q' = id q /\ width q' = width q /\ height q' = height q
       /\ color q' = color q /\ borderRadius q' = borderRadius q
       /\ (id q <> id square100 -> q' = q)
       /\ (id q = id square100 ->
             x q' == Math_max 0 (x square100 + (60 - 10))
             /\ y q' == Math_max 0 (y square100 + (40 - 10))
             /\ pixelWithin (5 * PIXEL_MAX) (x q')
             /\ pixelWithin (5 * PIXEL_MAX) (y q')))
    [square100]
    (pills (run storeOfSquare
              [PillMouseDown (onPill 10 10) square100;
               MouseMove (onPill 60 40)])).
Proof.
  apply (drag_moves_only_the_pressed_pill storeOfSquare originRect
           (onPill 10 10) square100 (onPill 60 40));
    try reflexivity; split; reflexivity.
Defined.

Lemma dragging_preserved s e :
  containerRef (handleMouseMove s e) = containerRef s
  /\ isDragging (handleMouseMove s e) = isDragging s
  /\ draggedPill (handleMouseMove s e) = draggedPill s
  /\ dragOffset (handleMouseMove s e) = dragOffset s.
Proof.
  destruct (handleMouseMove_frame s e) as [_ [_ [H1 [H2 [H3 [H4 _]]]]]].
  now repeat split.
Qed.

(** X10.  A drag ends where its last move puts the pill, whatever the path:
    while a pill is being dragged, the store after any sequence of moves is
    the store the last move alone would give. *)
Theorem drag_depends_on_last_move_only :
  forall (moves : list MouseEvent) (s : State) (rect : DOMRect)
         (target : Pill) (last : MouseEvent),
    containerRef s = Some rect ->
    isDragging s = true ->
    draggedPill s = Some target ->
    pills (run s (map MouseMove (moves ++ [last])))
    = pills (step s (MouseMove last)).
Proof.
  induction moves as [|m moves IH]; intros s rect target last Hc Hd Ht.
  - reflexivity.
  - simpl app. simpl map. rewrite run_cons. cbn [step].
    destruct (dragging_preserved s m) as [Fc [Fd [Ft Fo]]].
    rewrite (IH (handleMouseMove s m) rect target last);
      [|congruence|congruence|congruence].
    cbn [step].
    rewrite (handleMouseMove_dragging _ rect target last);
      [|congruence|congruence|congruence].
    rewrite (handleMouseMove_dragging s rect target m Hc Hd Ht).
    rewrite (handleMouseMove_dragging s rect target last Hc Hd Ht).
    rewrite Fo, map_map. apply map_ext. intro p. apply movePill_twice.
Qed.

Lemma drag_depends_on_last_move_only_witness :
  pills (run (handlePillMouseDown storeOfSquare (onPill 10 10) square100)
           (map MouseMove ([onPill 500 7; onPill 3 300] ++ [onPill 60 40])))
  = pills (step (handlePillMouseDown storeOfSquare (onPill 10 10) square100)
                (MouseMove (onPill 60 40))).
Proof.
  apply (drag_depends_on_last_move_only [onPill 500 7; onPill 3 300]
           (handlePillMouseDown storeOfSquare (onPill 10 10) square100)
           originRect square100 (onPill 60 40)); reflexivity.
Defined.

(** ** Clicks that are live *)

(** X11.  A press and release without any move is a click in place: after
    a press on a pill, or after a press on the bare surface, followed at
    once by the release, the click runs the split pass over the store at the
    click point.  After the press on the bare surface the pass starts one id
    later, the discarded draft having taken one. *)
Theorem click_in_place_runs_split_pass :
  (forall (s : State) (e0 : MouseEvent) (pill : Pill) (e : MouseEvent),
     isDrawing s = false ->
     pills (run s [PillMouseDown e0 pill; MouseUp; Click e])
     = fst (splitAll (pos_x (getMouseCoords s e)) (pos_y (getMouseCoords s e))
              (pills s) (nextIdRef s)))
  /\ (forall (s : State) (rect : DOMRect) (e0 : MouseEvent) (rnd : Q)
             (e : MouseEvent),
        containerRef s = Some rect ->
        targetIsContainer e0 = true ->
        isDrawing s = false ->
        pills (run s [MouseDown e0 rnd; MouseUp; Click e])
        = fst (splitAll (pos_x (getMouseCoords s e))
                 (pos_y (getMouseCoords s e))
                 (pills s) (nextIdRef s + 1)%Z)).
Proof.
  split.
  - intros s e0 pill e Hd.
    change (run s [PillMouseDown e0 pill; MouseUp; Click e])
      with (handleClick (handleMouseUp (handlePillMouseDown s e0 pill)) e).
    set (s1 := handlePillMouseDown s e0 pill).
    destruct (handleMouseUp_frame s1) as [_ [F1 [F2 [_ [F3 [F4 [_ F5]]]]]]].
    destruct (handleClick_live (handleMouseUp s1) e F1 F2) as [-> _].
    { rewrite F4. reflexivity. }
    rewrite handleMouseUp_pills, F3.
    change (isDrawing s1) with (isDrawing s). rewrite Hd.
    unfold getMouseCoords. rewrite F5. reflexivity.
  - intros s rect e0 rnd e Hc Ht Hd.
    change (run s [MouseDown e0 rnd; MouseUp; Click e])
      with (handleClick (handleMouseUp (handleMouseDown s e0 rnd)) e).
    rewrite (handleMouseDown_container _ _ _ _ Hc Ht).
    match goal with |- context [handleMouseUp ?t] => set (s1 := t) end.
    destruct (handleMouseUp_frame s1) as [_ [F1 [F2 [_ [F3 [F4 [_ F5]]]]]]].
    destruct (handleClick_live (handleMouseUp s1) e F1 F2) as [-> _].
    { rewrite F4. reflexivity. }
    rewrite handleMouseUp_pills, F3.
    change (isDrawing s1) with (isDrawing s). rewrite Hd.
    unfold getMouseCoords. rewrite F5. reflexivity.
Qed.

Lemma click_in_place_runs_split_pass_witness :
  pills (run storeOfSquare
           [PillMouseDown (onPill 50 50) square100; MouseUp;
            Click (onPill 50 50)])
  = fst (splitAll (pos_x (getMouseCoords storeOfSquare (onPill 50 50)))
           (pos_y (getMouseCoords storeOfSquare (onPill 50 50)))
           (pills storeOfSquare) (nextIdRef storeOfSquare))
  /\ pills (run storeOfSquare
              [MouseDown (at_ 50 200) 0; MouseUp; Click (at_ 50 200)])
     = fst (splitAll (pos_x (getMouseCoords storeOfSquare (at_ 50 200)))
              (pos_y (getMouseCoords storeOfSquare (at_ 50 200)))
              (pills storeOfSquare) (nextIdRef storeOfSquare + 1)%Z).
Proof.
  destruct click_in_place_runs_split_pass as [H1 H2]. split.
  - apply H1. reflexivity.
  - apply (H2 storeOfSquare originRect); reflexivity.
Defined.

(** X12.  The deferred reset is unconditional: when a reset scheduled by an
    earlier release runs in the middle of a later gesture, it clears the
    flag that gesture had set, and the click after the release then runs the
    split pass over the store, the pill the release has just committed
    included. *)
Theorem pending_reset_reopens_click :
  forall (s : State) (e : MouseEvent),
    pendingResets s <> 0%nat ->
    hasMoved (step s TimerFires) = false
    /\ hasMoved (run s [TimerFires; MouseUp]) = false
    /\ pills (run s [TimerFires; MouseUp; Click e])
       = fst (splitAll (pos_x (getMouseCoords s e))
                (pos_y (getMouseCoords s e))
                (if isDrawing s then pills s ++ draft s else pills s)
                (nextIdRef s)).
Proof.
  intros s e Hp.
  assert (Hreset : resetHasMoved s
                   = setPendingResets (pred (pendingResets s))
                       (setHasMoved false s)).
  { unfold resetHasMoved. destruct (pendingResets s); [contradiction|].
    reflexivity. }
  cbn [step].
  change (run s [TimerFires; MouseUp])
    with (handleMouseUp (resetHasMoved s)).
  change (run s [TimerFires; MouseUp; Click e])
    with (handleClick (handleMouseUp (resetHasMoved s)) e).
  rewrite Hreset.
  match goal with |- context [handleMouseUp ?t] => set (s1 := t) end.
  destruct (handleMouseUp_frame s1) as [_ [F1 [F2 [_ [F3 [F4 [_ F5]]]]]]].
  split; [reflexivity|]. split; [rewrite F4; reflexivity|].
  destruct (handleClick_live (handleMouseUp s1) e F1 F2) as [-> _].
  { rewrite F4. reflexivity. }
  rewrite handleMouseUp_pills, F3.
  unfold getMouseCoords. rewrite F5. reflexivity.
Qed.

Lemma pending_reset_reopens_click_witness :
  hasMoved (run (initialState originRect) releaseThenQuickDraw) = true
  /\ hasMoved (run (run (initialState originRect) releaseThenQuickDraw)
                 [TimerFires; MouseUp]) = false
  /\ ids (pills (run (run (initialState originRect) releaseThenQuickDraw)
                   [TimerFires; MouseUp; Click (at_ 50 50)]))
     = [2%Z; 3%Z; 4%Z; 5%Z].
Proof.
  split; [reflexivity|].
  destruct (pending_reset_reopens_click
              (run (initialState originRect) releaseThenQuickDraw)
              (at_ 50 50)) as [_ [H2 H3]].
  - vm_compute. discriminate.
  - split; [exact H2|]. rewrite H3. reflexivity.
Defined.

(** ** What is rendered *)

Lemma styled_own_radius p :
  styled p ->
  borderRadius p = Some (orElse (borderRadius p) CORNER_RADIUS)
  /\ In (orElse (borderRadius p) CORNER_RADIUS) cornerStyles.
Proof.
  intros [_ Hr]. apply in_map_iff in Hr. destruct Hr as [r [<- Hr]].
  simpl in Hr.
  repeat (destruct Hr as [<- | Hr]; [split; [reflexivity | simpl; tauto]|]).
  contradiction.
Qed.

Lemma movePill_styled target offset mx my p :
  styled p -> styled (movePill target offset mx my p).
Proof.
  unfold movePill, styled. now destruct (id p =? id target)%Z.
Qed.

Lemma splitPill_styled clickX clickY pill n :
  styled pill -> Forall styled (fst (splitPill clickX clickY pill n)).
Proof.
  intros [Hc Hr]. unfold splitPill.
  destruct (canSplitV clickX pill), (canSplitH clickY pill); simpl.
  1-3: repeat (apply Forall_cons; [split; [exact Hc | simpl; tauto]|]);
    constructor.
  destruct (intersectsV clickX pill || intersectsH clickY pill); simpl;
    (apply Forall_cons; [|constructor]).
  - split; [exact Hc | simpl; tauto].
  - now split.
Qed.

Lemma splitAll_styled clickX clickY l : forall n,
  Forall styled l -> Forall styled (fst (splitAll clickX clickY l n)).
Proof.
  induction l as [|pill rest IH]; intros n Hall.
  - constructor.
  - inversion Hall; subst. rewrite splitAll_cons. simpl fst.
    apply Forall_app. split; [now apply splitPill_styled | now apply IH].
Qed.

Lemma styled_step s ev :
  Forall styled (shapes s) -> randomInRange ev ->
  Forall styled (shapes (step s ev)).
Proof.
  intros Hall Hev. unfold shapes in *.
  apply Forall_app in Hall. destruct Hall as [Hp Hd].
  destruct ev as [e | e rnd | e pill | | e |]; cbn [step].
  - (* MouseMove *)
    apply Forall_app. split.
    + destruct (handleMouseMove_pills s e) as [-> | [t [_ [_ ->]]]];
        [assumption|].
      apply Forall_map. eapply Forall_impl; [|exact Hp].
      intro p. apply movePill_styled.
    + unfold draft in *.
      destruct (handleMouseMove_currentPill s e) as [-> | [_ ->]];
        [assumption|].
      destruct (currentPill s) as [d|]; simpl; constructor; [|constructor].
      inversion Hd; subst. assumption.
  - (* MouseDown *)
    destruct (handleMouseDown_cases s e rnd) as [-> | [rect [Hc Ht]]].
    { apply Forall_app. now split. }
    rewrite (handleMouseDown_container _ _ _ _ Hc Ht).
    apply Forall_app. split; [exact Hp|].
    constructor; [|constructor]. destruct Hev as [H0 H1].
    split; cbn [color borderRadius].
    + unfold getRandomColor. apply nth_In. now apply random_index_in_range.
    + now left.
  - (* PillMouseDown *)
    apply Forall_app. now split.
  - (* MouseUp *)
    destruct (handleMouseUp_frame s) as [Hnone _].
    unfold draft at 1. rewrite handleMouseUp_pills, Hnone, app_nil_r.
    destruct (isDrawing s); [apply Forall_app; now split | assumption].
  - (* Click *)
    destruct (handleClick_cases s e) as [-> | [_ [_ [_ ->]]]].
    { apply Forall_app. now split. }
    apply Forall_app. split; [|exact Hd].
    simpl pills. now apply splitAll_styled.
  - (* TimerFires *)
    destruct (resetHasMoved_frame s) as [Fp [Fd _]].
    unfold draft in *. rewrite Fp, Fd. apply Forall_app. now split.
Qed.

Lemma styled_run evs : forall s,
  Forall styled (shapes s) -> Forall randomInRange evs ->
  Forall styled (shapes (run s evs)).
Proof.
  induction evs as [|ev evs IH]; intros s Hs Hall.
  - exact Hs.
  - inversion Hall; subst. rewrite run_cons.
    apply IH; [now apply styled_step | assumption].
Qed.

Lemma NoDup_map_Some {A : Type} (l : list A) :
  NoDup l -> NoDup (map Some l).
Proof.
  induction 1 as [|a l Hnotin Hnd IH]; simpl; constructor; [|exact IH].
  intro Hin. apply in_map_iff in Hin. destruct Hin as [b [[= ->] Hb]].
  contradiction.
Qed.

(** X13.  In every state reached from the first render with
    [Math.random()] in [0, 1): the rendered pills have pairwise distinct
    React keys; each background colour is one of the palette; and each
    pill, like the draft, carries a corner style of its own, one of the
    nine the source writes, so that the fallback
    [pill.borderRadius || CORNER_RADIUS] is never taken. *)
Theorem rendered_pills_have_distinct_keys_and_own_styles :
  forall (rect : DOMRect) (evs : list Event),
    Forall randomInRange evs ->
    NoDup (map key (pillDivs (render (run (initialState rect) evs))))
    /\ Forall2
         (fun p d =>
            key d = Some (id p)
            /\ In (backgroundColor d) colors
            /\ borderRadius p = Some (styleBorderRadius d)
            /\ In (styleBorderRadius d) cornerStyles)
         (pills (run (initialState rect) evs))
         (pillDivs (render (run (initialState rect) evs)))
    /\ (forall p d,
          currentPill (run (initialState rect) evs) = Some p ->
          currentPillDiv (render (run (initialState rect) evs)) = Some d ->
          key d = None
          /\ In (backgroundColor d) colors
          /\ borderRadius p = Some (styleBorderRadius d)).
Proof.
  intros rect evs Hrnd.
  set (s := run (initialState rect) evs).
  assert (Hst : Forall styled (shapes s)).
  { apply styled_run; [constructor | exact Hrnd]. }
  unfold shapes in Hst. apply Forall_app in Hst. destruct Hst as [Hp Hd].
  destruct (reachable_store_ids rect evs) as [Hnd _]. fold s in Hnd.
  unfold render. cbn [pillDivs currentPillDiv].
  split; [|split].
  - rewrite map_map. cbn [renderPill key].
    unfold ids in Hnd. rewrite <- (map_map id Some).
    now apply NoDup_map_Some.
  - clear Hnd. induction (pills s) as [|p l IH]; simpl; constructor.
    + inversion Hp as [|? ? Hs _]; subst.
      destruct (styled_own_radius p Hs) as [H1 H2].
      destruct Hs as [Hc _]. cbn [renderPill key backgroundColor styleBorderRadius].
      repeat split; assumption.
    + apply IH. now inversion Hp.
  - intros p d Hcur Hdiv. unfold draft in Hd. rewrite Hcur in *.
    simpl in Hdiv. injection Hdiv as <-.
    inversion Hd as [|? ? Hs _]; subst.
    destruct (styled_own_radius p Hs) as [H1 _]. destruct Hs as [Hc _].
    cbn [renderCurrentPill key backgroundColor styleBorderRadius].
    repeat split; assumption.
Qed.

Lemma rendered_pills_have_distinct_keys_and_own_styles_witness :
  Forall randomInRange drawThenClickNearEdge
  /\ NoDup (map key (pillDivs (render (run (initialState originRect)
                                         drawThenClickNearEdge))))
  /\ map styleBorderRadius
       (pillDivs (render (run (initialState originRect)
                            drawThenClickNearEdge)))
     = [ "20px 0 0 0"; "0 20px 0 0"; "0 0 0 20px"; "0 0 20px 0" ]%string.
Proof.
  assert (H : Forall randomInRange drawThenClickNearEdge).
  { repeat constructor; vm_compute; congruence. }
  split; [exact H|].
  destruct (rendered_pills_have_distinct_keys_and_own_styles originRect
              drawThenClickNearEdge H) as [Hk _].
  split; [exact Hk | reflexivity].
Defined.

(** ** Fresh and surviving pills of a click pass *)

Lemma idRange_app n k m :
  idRange n (k + m) = idRange n k ++ idRange (n + Z.of_nat k) m.
Proof.
  revert n. induction k as [|k IH]; intro n; simpl.
  - now rewrite Z.add_0_r.
  - rewrite IH.
    replace (n + 1 + Z.of_nat k)%Z with (n + Z.of_nat (S k))%Z by lia.
    reflexivity.
Qed.

Lemma filter_fresh_old n l :
  (forall p, In p l -> (id p < n)%Z) -> filter (isFresh n) l = [].
Proof.
  induction l as [|p l IH]; intro H; simpl; [reflexivity|].
  unfold isFresh at 1.
  destruct (Z.leb_spec n (id p)) as [Hle | Hlt].
  - specialize (H p (or_introl eq_refl)). lia.
  - apply IH. intros q Hq. apply H. now right.
Qed.

Lemma splitPill_cases clickX clickY pill n :
  (untouched clickX clickY pill = true
   /\ splitPill clickX clickY pill n = ([pill], n))
  \/ (untouched clickX clickY pill = false
      /\ exists k : nat,
           (1 <= k)%nat
           /\ ids (fst (splitPill clickX clickY pill n)) = idRange n k
           /\ snd (splitPill clickX clickY pill n) = (n + Z.of_nat k)%Z).
Proof.
  unfold splitPill, untouched, canSplitV, canSplitH.
  destruct (intersectsV clickX pill) eqn:IV;
    destruct (intersectsH clickY pill) eqn:IH; simpl.
  4: { left. split; reflexivity. }
  all: right; split; [reflexivity|].
  all: repeat match goal with
       | |- context [if ?c then _ else _] => destruct c
       end; simpl.
  all: first
    [ exists 4%nat; split; [lia|]; split; [simpl; repeat f_equal; lia | lia]
    | exists 2%nat; split; [lia|]; split; [simpl; repeat f_equal; lia | lia]
    | exists 1%nat; split; [lia|]; split; [reflexivity | lia] ].
Qed.

Lemma filter_fresh_range n m k :
  (n <= m)%Z ->
  forall l, map id l = idRange m k -> filter (isFresh n) l = l.
Proof.
  revert m. induction k as [|k IH]; intros m Hle l Hl.
  - destruct l; [reflexivity | discriminate].
  - destruct l as [|p l]; [discriminate|]. simpl in Hl.
    injection Hl as Hp Hl. simpl. unfold isFresh at 1.
    destruct (Z.leb_spec n (id p)) as [_ | Hlt]; [|lia].
    f_equal. apply (IH (m + 1)%Z); [lia | exact Hl].
Qed.

Lemma filter_old_range n m k :
  (n <= m)%Z ->
  forall l, map id l = idRange m k ->
            filter (fun p => negb (isFresh n p)) l = [].
Proof.
  revert m. induction k as [|k IH]; intros m Hle l Hl.
  - destruct l; [reflexivity | discriminate].
  - destruct l as [|p l]; [discriminate|]. simpl in Hl.
    injection Hl as Hp Hl. simpl. unfold isFresh at 1.
    destruct (Z.leb_spec n (id p)) as [_ | Hlt]; [|lia].
    simpl. apply (IH (m + 1)%Z); [lia | exact Hl].
Qed.

(** X14.  In one click pass over a store whose ids are below the counter,
    the fresh pills carry, in store order, exactly the consecutive ids from
    the old counter up to the new one (none skipped, none out of order),
    and the pills that keep an old id are exactly the pills the click
    touches on neither axis, unchanged and in their original order. *)
Theorem click_pass_fresh_and_surviving_pills :
  forall (clickX clickY : Q) (l : list Pill) (n : Z),
    (forall p, In p l -> (id p < n)%Z) ->
    ids (filter (isFresh n) (fst (splitAll clickX clickY l n)))
    = idRange n (Z.to_nat (snd (splitAll clickX clickY l n) - n))
    /\ filter (fun p => negb (isFresh n p)) (fst (splitAll clickX clickY l n))
       = filter (untouched clickX clickY) l.
Proof.
  intros clickX clickY l.
  assert (Hgen : forall n0 n,
    (n0 <= n)%Z ->
    (forall p, In p l -> (id p < n0)%Z) ->
    ids (filter (isFresh n0) (fst (splitAll clickX clickY l n)))
    = idRange n (Z.to_nat (snd (splitAll clickX clickY l n) - n))
    /\ filter (fun p => negb (isFresh n0 p))
              (fst (splitAll clickX clickY l n))
       = filter (untouched clickX clickY) l).
  { induction l as [|pill rest IH]; intros n0 n Hle Hlt.
    - simpl. rewrite Z.sub_diag. split; reflexivity.
    - rewrite splitAll_cons. cbn [fst snd].
      rewrite !filter_app. unfold ids. rewrite map_app. fold ids.
      assert (Hrest : forall p, In p rest -> (id p < n0)%Z)
        by (intros p Hp; apply Hlt; now right).
      assert (Hpill : (id pill < n0)%Z) by (apply Hlt; now left).
      pose proof (splitAll_counter clickX clickY rest
                    (snd (splitPill clickX clickY pill n))) as Hcnt.
      destruct (splitPill_cases clickX clickY pill n)
        as [[Hu E] | [Hu [k [Hk [Eids Esnd]]]]].
      + rewrite E in *. cbn [fst snd] in *.
        destruct (IH n0 n Hle Hrest) as [IH1 IH2].
        change (filter (untouched clickX clickY) (pill :: rest))
          with (if untouched clickX clickY pill
                then pill :: filter (untouched clickX clickY) rest
                else filter (untouched clickX clickY) rest).
        rewrite Hu.
        assert (Hold : isFresh n0 pill = false).
        { unfold isFresh. apply Z.leb_gt. exact Hpill. }
        change (filter (isFresh n0) [pill])
          with (if isFresh n0 pill then [pill] else []).
        change (filter (fun p => negb (isFresh n0 p)) [pill])
          with (if negb (isFresh n0 pill) then [pill] else []).
        rewrite Hold. simpl.
        split; [exact IH1 | now rewrite IH2].
      + rewrite Esnd in *.
        destruct (IH n0 (n + Z.of_nat k)%Z ltac:(lia) Hrest) as [IH1 IH2].
        rewrite (filter_fresh_range n0 n k Hle _ Eids).
        rewrite (filter_old_range n0 n k Hle _ Eids).
        change (filter (untouched clickX clickY) (pill :: rest))
          with (if untouched clickX clickY pill
                then pill :: filter (untouched clickX clickY) rest
                else filter (untouched clickX clickY) rest).
        rewrite Hu. split; [|exact IH2].
        fold (ids (fst (splitPill clickX clickY pill n))).
        fold (ids (filter (isFresh n0)
                     (fst (splitAll clickX clickY rest (n + Z.of_nat k)%Z)))).
        rewrite Eids, IH1.
        set (n' := snd (splitAll clickX clickY rest (n + Z.of_nat k)%Z)) in *.
        replace (Z.to_nat (n' - n)%Z)
          with (k + Z.to_nat (n' - (n + Z.of_nat k))%Z)%nat by lia.
        now rewrite idRange_app. }
  intros n Hlt. apply (Hgen n n); [lia | exact Hlt].
Qed.

Lemma click_pass_fresh_and_surviving_pills_witness :
  ids (filter (isFresh 2%Z) (fst (splitAll 50 50 [square100; farPill] 2%Z)))
  = idRange 2%Z
      (Z.to_nat (snd (splitAll 50 50 [square100; farPill] 2%Z) - 2))
  /\ filter (fun p => negb (isFresh 2%Z p))
            (fst (splitAll 50 50 [square100; farPill] 2%Z))
     = filter (untouched 50 50) [square100; farPill].
Proof.
  apply (click_pass_fresh_and_surviving_pills 50 50 [square100; farPill] 2%Z).
  intros p [<- | [<- | []]]; simpl; lia.
Defined.
